(** * DeepFry Studio: render scheduler and pixel pipeline

    A shallow embedding of the three builds of the DeepFry Studio component
    that live in the repository:

    - [Studio]    : the build with the requestAnimationFrame render queue,
                    preview scaling, burn and bloom;
    - [FreeBuild] : [src/App.tsx], the build with exposure and extra gain,
                    rendering synchronously from an effect;
    - [ProTeaser] : the earliest build (filters, posterize and noise on the
                    visible canvas, "Pro" modal).

    Conventions of the embedding.

    - A JavaScript [number] is modelled by a rational ([Q]) and the
      arithmetic of the source is transcribed operator by operator.  The
      product that sizes the working canvas is rounded to IEEE binary64
      ([JS.times]), as its floor depends on the rounding; the rest of the
      arithmetic is left exact.  [Math.pow] and the 2D canvas operations
      are primitives of the host and are taken from the class [Host];
      [Math.random] is an explicit stream of draws.
    - A [Uint8ClampedArray] is a [list Z]; a store converts the number with
      [ToUint8Clamp], and a store outside the array is ignored (as stdpp's
      list insert does).  A read outside the array, [undefined] in
      JavaScript, is 0 here; the data of an [ImageData] holds whole pixels,
      so that the loops never read outside it.
    - React refs are fields of an explicit state record; a closure created
      during a component render captures that render's [Props]. *)

From Stdlib Require Import ZArith QArith Qround Qminmax Qabs Qpower Lia Lqa String.
From stdpp Require Import base list.

Open Scope Z_scope.

(** ** ECMAScript number primitives *)

Module JS.

Definition Math_max (a b : Q) : Q := if Qle_bool a b then b else a.
Definition Math_min (a b : Q) : Q := if Qle_bool a b then a else b.

Definition Math_floor (x : Q) : Z := Qfloor x.

(** [Math.round]: the nearest integer, halves going up. *)
Definition Math_round (x : Q) : Z := Qfloor (x + (1 # 2))%Q.

(** Truncation toward zero, the first step of [ToInt32]. *)
Definition truncate (x : Q) : Z :=
  if Qle_bool 0%Q x then Qfloor x else Qceiling x.

Definition wrap32 (z : Z) : Z := (z + 2 ^ 31) mod 2 ^ 32 - 2 ^ 31.

(** [v | 0]. *)
Definition ToInt32 (x : Q) : Z := wrap32 (truncate x).

(** The conversion applied by a store into a [Uint8ClampedArray]:
    clamp to 0..255, then round to nearest, halves to even. *)
Definition ToUint8Clamp (x : Q) : Z :=
  if Qle_bool x 0%Q then 0
  else if Qle_bool 255%Q x then 255
  else
    let f := Qfloor x in
    match Qcompare (x - inject_Z f) (1 # 2) with
    | Lt => f
    | Gt => f + 1
    | Eq => if Z.even f then f else f + 1
    end.

(** [a > b] *)
Definition gt (a b : Q) : bool := negb (Qle_bool a b).

(** *** IEEE binary64 *)

(** The nearest integer, halves to even. *)
Definition roundHalfEven (x : Q) : Z :=
  let f := Qfloor x in
  match Qcompare (x - inject_Z f) (1 # 2) with
  | Lt => f
  | Gt => f + 1
  | Eq => if Z.even f then f else f + 1
  end.

(** The exponent of the unit in the last place at [x > 0]: with
    [2 ^ e <= x < 2 ^ (e + 1)] it is [e - 52], and [-1074] in the
    subnormal range. *)
Definition ulpExponent (x : Q) : Z :=
  let e := Z.log2 (Qnum x) - Z.log2 (Zpos (Qden x)) in
  let e := if Qle_bool (2 ^ e)%Q x then e else e - 1 in
  Z.max (e - 52) (-1074).

(** The binary64 number nearest to [x], ties to the even significand: the
    value a numeric literal denotes and the rounding of every arithmetic
    result.  Overflow to [Infinity] (from [2 ^ 1024] on) is not
    modelled. *)
Definition round64 (x : Q) : Q :=
  if Qeq_bool x 0 then 0%Q
  else
    let ulp := (2 ^ ulpExponent (Qabs x))%Q in
    (inject_Z (roundHalfEven (x / ulp)) * ulp)%Q.

(** [x * y] on binary64 numbers: the exact product, rounded.  A product by
    1 is the other factor; it is returned as it is, so that a whole number
    of any size stands for itself. *)
Definition times (x y : Q) : Q :=
  if Qeq_bool y 1 then x else round64 (x * y).

(** [a || b] on numbers: [0] is the falsy number. *)
Definition or_else (a b : Z) : Z := if a =? 0 then b else a.

End JS.

(** ** The pixel loop *)

(** [for (let i = 0; i < d.length; i += 4) body]: the iterations are
    numbered by the pixel, [i = 4 * k]; [forPixels body n k] runs [n] of
    them from the pixel [k] on. *)
Fixpoint forPixels (body : nat -> list Z -> list Z) (n k : nat) (d : list Z)
  : list Z :=
  match n with
  | O => d
  | S n' => forPixels body n' (S k) (body k d)
  end.

(** One iteration for every multiple of four below [d.length]. *)
Definition forEachPixel (body : nat -> list Z -> list Z) (d : list Z) : list Z :=
  forPixels body ((length d + 3) / 4)%nat 0%nat d.

(** ** Output size *)

(** The effect that sizes the image on load, the same in the three builds:
    the [outW] and [outH] it sets for a [w] x [h] bitmap. *)
Definition outputSize (w h : Z) : Z * Z :=
  let max := 1600%Q in
  let scale :=
    JS.Math_min 1 (max / JS.Math_max (inject_Z w) (inject_Z h))%Q in
  (JS.Math_round (inject_Z w * scale), JS.Math_round (inject_Z h * scale)).

(** ** Rasters and the host *)

(** Pixel storage of an [ImageBitmap], an [ImageData] or a canvas:
    [4 * width * height] bytes, RGBA. *)
Record Raster := mkRaster {
  width : Z;
  height : Z;
  data : list Z
}.

(** The argument of [ctx.filter]. *)
Record CssFilter := mkFilter {
  f_brightness : Q;   (* percent *)
  f_contrast : Q;     (* percent *)
  f_saturate : Q;     (* percent *)
  f_hueRotate : Q     (* degrees *)
}.

(** The gradient overlays, by the function that paints them. *)
Inductive Overlay :=
| Vignette (w h : Z) (strength : Q)
| FilmBurn (w h : Z) (energy : Q)
| WarmEdgeBurn (w h : Z) (strength : Q)
| Scanlines (w h : Z) (opacity : Q)
| ChromAb (w h : Z).

(** What the JavaScript engine and the 2D canvas provide. *)
Class Host := {
  (** [Math.pow(x, y)] *)
  Math_pow : Q -> Q -> Q;
  (** [c.filter = f; c.drawImage(src, 0, 0, w, h)] on a new [w] x [h] canvas
      ([None] is [filter = "none"]): the pixel data of the result. *)
  drawImage : option CssFilter -> Raster -> Z -> Z -> list Z;
  (** [drawImage(src, 0, 0, W, H)] over [dst] with
      [globalCompositeOperation = "screen"] and the given [globalAlpha]. *)
  drawScreen : Q -> Raster -> Raster -> list Z;
  (** One of the [draw...] overlay helpers applied to the visible canvas. *)
  paint : Overlay -> Raster -> Raster
}.

Inductive PresetType := none | film | lofi | vhs | ultra.

(** What a call of [handleDownload] does to the page. *)
Inductive Effect :=
| Alert (msg : string)
| Download (filename mime : string) (quality : Q) (surface : Raster).

(** ** The build with the render queue (burn, bloom, preview scaling) *)

Module Studio.
Import JS.

(** The values a component render closes over: the image, the
    adjustments and the output size. *)
Record Props := mkProps {
  imageBitmap : option Raster;
  brightness : Q;   (* 50..400 % *)
  contrast : Q;     (* % *)
  saturation : Q;   (* % *)
  hue : Q;          (* deg *)
  exposureEV : Q;   (* -2..+2 (stops) *)
  burn : Q;         (* 0..100 (%) *)
  noise : Q;        (* 0..1 *)
  posterize : Q;    (* 0..8 *)
  preset : PresetType;
  outW : Z;
  outH : Z
}.

(** *** Render queue *)

(** One execution of [renderFrame]: the closure that ran, its argument,
    and [isScrubbingRef.current] as the call read it. *)
Record RenderCall := mkCall {
  callProps : Props;
  runHeavyPasses : bool;
  scrubbing : bool
}.

(** The three refs, the animation-frame callbacks the browser holds
    (handle and the [Props] the registered closure captured), the next
    handle it will give out, and the renders executed so far. *)
Record Sched := mkSched {
  isScrubbingRef : bool;
  rafRef : option nat;
  wantFullRef : bool;
  frameCallbacks : list (nat * Props);
  nextHandle : nat;
  calls : list RenderCall
}.

Definition initial : Sched := mkSched false None false [] 1%nat [].

Definition queueRender (p : Props) (requestFull : bool) (s : Sched) : Sched :=
  let want := if requestFull then true else wantFullRef s in
  match rafRef s with
  | Some _ =>
      mkSched (isScrubbingRef s) (rafRef s) want
              (frameCallbacks s) (nextHandle s) (calls s)
  | None =>
      let h := nextHandle s in
      mkSched (isScrubbingRef s) (Some h) want
              (frameCallbacks s ++ [(h, p)]) (S h) (calls s)
  end.

(** The arrow function handed to [requestAnimationFrame]. *)
Definition frameCallback (p : Props) (s : Sched) : Sched :=
  let runFull := wantFullRef s && negb (isScrubbingRef s) in
  mkSched (isScrubbingRef s) None false
          (frameCallbacks s) (nextHandle s)
          (calls s ++ [mkCall p runFull (isScrubbingRef s)]).

(** A display refresh: the browser runs the callbacks registered for it. *)
Definition animationFrame (s : Sched) : Sched :=
  fold_left (fun s' cb => frameCallback (snd cb) s')
            (frameCallbacks s)
            (mkSched (isScrubbingRef s) (rafRef s) (wantFullRef s)
                     [] (nextHandle s) (calls s)).

Definition startScrub (p : Props) (s : Sched) : Sched :=
  queueRender p false
    (mkSched true (rafRef s) (wantFullRef s)
             (frameCallbacks s) (nextHandle s) (calls s)).

Definition endScrub (p : Props) (s : Sched) : Sched :=
  queueRender p true
    (mkSched false (rafRef s) (wantFullRef s)
             (frameCallbacks s) (nextHandle s) (calls s)).

Inductive Event :=
| QueueRender (p : Props) (requestFull : bool)
| StartScrub (p : Props)
| EndScrub (p : Props)
| AnimationFrame.

Definition step (s : Sched) (e : Event) : Sched :=
  match e with
  | QueueRender p requestFull => queueRender p requestFull s
  | StartScrub p => startScrub p s
  | EndScrub p => endScrub p s
  | AnimationFrame => animationFrame s
  end.

Definition run (es : list Event) (s : Sched) : Sched := fold_left step es s.

(** The [requestFull] argument of the [queueRender] call an event makes. *)
Definition requestsFull (e : Event) : bool :=
  match e with
  | QueueRender _ requestFull => requestFull
  | EndScrub _ => true
  | StartScrub _ | AnimationFrame => false
  end.

Definition isRequest (e : Event) : bool :=
  match e with AnimationFrame => false | _ => true end.

Definition eventProps (e : Event) : option Props :=
  match e with
  | QueueRender p _ | StartScrub p | EndScrub p => Some p
  | AnimationFrame => None
  end.

(** No frame is pending. *)
Definition idle (s : Sched) : Prop := rafRef s = None /\ frameCallbacks s = [].

(** One frame is pending; its callback closes over [p]. *)
Definition armed (h : nat) (p : Props) (s : Sched) : Prop :=
  rafRef s = Some h /\ frameCallbacks s = [(h, p)].

(** *** Pixel pass *)

Local Open Scope Q_scope.

Definition clamp (v : Q) : Q :=
  Math_max 0 (Math_min 255 (inject_Z (ToInt32 v))).

(** The constants [cssB] and [extraGain] of [renderFrame]. *)
Definition cssB (p : Props) : Q := Math_min (brightness p) 200.

Definition extraGain (p : Props) : Q := Math_max 1 (brightness p / 200).

Definition burnAmt (p : Props) : Q := Math_max 0 (Math_min 1 (burn p / 100)).

(** [L] and [t] of the burn branch. *)
Definition luminance (c : Q * Q * Q) : Q :=
  let '(r, g, b) := c in 0.2126 * r + 0.7152 * g + 0.0722 * b.

Definition highlightMask (L : Q) : Q :=
  Math_min 1 (Math_max 0 ((L - 110) / 145)).

(** The burn branch of the loop body, on the channels after gain. *)
Definition burnStage (burnAmt : Q) (c : Q * Q * Q) : Q * Q * Q :=
  let warmBoost := 0.45 * burnAmt in
  let hlPush := 1.15 * burnAmt in
  let blueCut := 0.28 * burnAmt in
  let '(r, g, b) := c in
  if gt burnAmt 0 then
    let L := luminance (r, g, b) in
    let t := highlightMask L in
    let push := 1 + hlPush * t in
    (r * push + 255 * warmBoost * t * 0.6,
     g * (1 + (hlPush * 0.65) * t) + 255 * warmBoost * t * 0.3,
     b * (1 + (hlPush * 0.35) * t) - 255 * blueCut * t * 0.2)
  else c.

Definition posterizeStage (doPosterize : bool) (step : Q) (c : Q * Q * Q)
  : Q * Q * Q :=
  let '(r, g, b) := c in
  if doPosterize then
    (inject_Z (Math_round (r / step)) * step,
     inject_Z (Math_round (g / step)) * step,
     inject_Z (Math_round (b / step)) * step)
  else c.

(** [u] is the value of the pixel's [Math.random()] call. *)
Definition noiseStage (doNoise : bool) (noiseAmp : Q) (u : Q) (c : Q * Q * Q)
  : Q * Q * Q :=
  let '(r, g, b) := c in
  if doNoise then
    let n := (u - 0.5) * 2 * noiseAmp in
    (r + n, g + n, b + n)
  else c.

(** The values [r], [g], [b] of one loop iteration just before the three
    stores, from the bytes read at [i], [i+1], [i+2]. *)
Definition shade `{Host} (p : Props) (allowHeavy : bool) (u : Q)
    (d0 d1 d2 : Z) : Q * Q * Q :=
  let exposureGain := Math_pow 2 (exposureEV p) in
  let extraGain := extraGain p in
  let doPosterize := gt (posterize p) 1 && allowHeavy in
  let step := if doPosterize then 255 / (posterize p - 1) else 0 in
  let doNoise := gt (noise p) 0 && allowHeavy in
  let noiseAmp := if doNoise then noise p * 255 else 0 in
  let r := inject_Z d0 * exposureGain * extraGain in
  let g := inject_Z d1 * exposureGain * extraGain in
  let b := inject_Z d2 * exposureGain * extraGain in
  noiseStage doNoise noiseAmp u
    (posterizeStage doPosterize step
       (burnStage (burnAmt p) (r, g, b))).

(** The body of the loop for the pixel number [k] ([i = 4 * k]); [rnd k]
    is the draw of that iteration. *)
Definition pixelStep `{Host} (p : Props) (allowHeavy : bool) (rnd : nat -> Q)
    (k : nat) (d : list Z) : list Z :=
  let i := (4 * k)%nat in
  let '(r, g, b) :=
    shade p allowHeavy (rnd k) (d !!! i) (d !!! (i + 1)%nat) (d !!! (i + 2)%nat) in
  <[(i + 2)%nat := ToUint8Clamp (clamp b)]>
    (<[(i + 1)%nat := ToUint8Clamp (clamp g)]>
       (<[i := ToUint8Clamp (clamp r)]> d)).

Definition pixelPass `{Host} (p : Props) (allowHeavy : bool) (rnd : nat -> Q)
    (d : list Z) : list Z :=
  forEachPixel (pixelStep p allowHeavy rnd) d.

(** The three bytes one iteration stores, from the three it read. *)
Definition stored `{Host} (p : Props) (allowHeavy : bool) (u : Q)
    (d0 d1 d2 : Z) : Z * Z * Z :=
  let '(r, g, b) := shade p allowHeavy u d0 d1 d2 in
  (ToUint8Clamp (clamp r), ToUint8Clamp (clamp g), ToUint8Clamp (clamp b)).

(** *** renderFrame *)

Definition canvasSize (p : Props) (bmp : Raster) : Z * Z :=
  (or_else (outW p) (width bmp), or_else (outH p) (height bmp)).

(** The literal [0.35] is the binary64 number nearest to 0.35. *)
Definition previewScale (isScrubbing : bool) : Q :=
  if isScrubbing then round64 0.35 else 1.

(** Size of the working canvas for a [CW] x [CH] visible canvas. *)
Definition workSize (isScrubbing : bool) (CW CH : Z) : Z * Z :=
  (Z.max 1 (Math_floor (times (inject_Z CW) (previewScale isScrubbing))),
   Z.max 1 (Math_floor (times (inject_Z CH) (previewScale isScrubbing)))).

Definition gradeFilter (p : Props) : CssFilter :=
  mkFilter (cssB p) (contrast p) (saturation p) (hue p).

(** The overlay calls at the end of [renderFrame], in order. *)
Definition overlayCalls (p : Props) (CW CH : Z) : list Overlay :=
  (match preset p with
   | film => [Vignette CW CH 0.5; FilmBurn CW CH 0.8]
   | lofi => [Vignette CW CH 0.7]
   | vhs => [Scanlines CW CH 0.18; ChromAb CW CH]
   | ultra => [Vignette CW CH 0.85; FilmBurn CW CH 1.0;
               Scanlines CW CH 0.25; ChromAb CW CH]
   | none => []
   end)
  ++ (if gt (burn p) 0
      then [Vignette CW CH (0.28 * (burn p / 100));
            WarmEdgeBurn CW CH (0.5 * (burn p / 100))]
      else []).

(** What one execution of [renderFrame] leaves behind when it gets past
    its early returns. *)
Record Frame := mkFrame {
  visible : Raster;         (* the canvas on the page *)
  work : Raster;            (* the working canvas it allocated *)
  overlays : list Overlay   (* the overlay calls it made *)
}.

(** [isScrubbing] is [isScrubbingRef.current], [canvas] is
    [canvasRef.current] and [rnd] the draws of this execution; the 2D
    contexts are taken to be available.  [None] is an early return. *)
Definition renderFrame `{Host} (p : Props) (isScrubbing : bool)
    (rnd : nat -> Q) (canvas : option Raster) (runHeavyPasses : bool)
  : option Frame :=
  match imageBitmap p, canvas with
  | Some bmp, Some _ =>
      let '(CW, CH) := canvasSize p bmp in
      let '(W, H) := workSize isScrubbing CW CH in
      (* 1) filter pass *)
      let graded := drawImage (Some (gradeFilter p)) bmp W H in
      (* 2) pixel pass *)
      let allowHeavy := runHeavyPasses || negb isScrubbing in
      let d :=
        if allowHeavy || negb (Qeq_bool (exposureEV p) 0)
           || gt (brightness p) 200 || gt (burn p) 0
        then
          let d := pixelPass p allowHeavy rnd graded in
          (* 2b) bloom *)
          if gt (burnAmt p) 0 && allowHeavy then
            let bw := Z.max 1 (ToInt32 (inject_Z W * 0.25)) in
            let bh := Z.max 1 (ToInt32 (inject_Z H * 0.25)) in
            let bcnv := mkRaster bw bh (drawImage None (mkRaster W H d) bw bh) in
            drawScreen (0.35 * burnAmt p) (mkRaster W H d) bcnv
          else d
        else graded in
      let wk := mkRaster W H d in
      (* 3) blit *)
      let blit := mkRaster CW CH (drawImage None wk CW CH) in
      (* 4) overlays *)
      let ovs := overlayCalls p CW CH in
      Some (mkFrame (fold_left (fun c o => paint o c) ovs blit) wk ovs)
  | _, _ => None
  end.

(** *** Export *)

Definition handleDownload (canvas : option Raster) : list Effect :=
  match canvas with
  | None => []
  | Some c =>
      if (width c =? 0)%Z || (height c =? 0)%Z
      then [Alert "Nothing to download yet."]
      else [Download "deepfry.jpg" "image/jpeg" 0.9 c]
  end.

(** *** Reset and presets *)

(** The handlers write the adjustment state of the next render and call
    [queueRender] of the render they were created in, with its props [p]. *)
Definition handleReset (p : Props) (s : Sched) : Props * Sched :=
  (mkProps (imageBitmap p) 120 120 140 0 0 35 0.08 0 none (outW p) (outH p),
   queueRender p true s).

Definition applyPreset (k : PresetType) (p : Props) (s : Sched)
  : Props * Sched :=
  let '(p', s') :=
    match k with
    | film =>
        (mkProps (imageBitmap p) 115 130 150 10 0.2 50 0.12 0 film
                 (outW p) (outH p), s)
    | lofi =>
        (mkProps (imageBitmap p) 110 95 70 8 (-0.1) 20 0.06 0 lofi
                 (outW p) (outH p), s)
    | vhs =>
        (mkProps (imageBitmap p) 115 130 120 0 0 30 0.08 0 vhs
                 (outW p) (outH p), s)
    | ultra =>
        (mkProps (imageBitmap p) 200 200 220 20 0.8 75 0.2 6 ultra
                 (outW p) (outH p), s)
    | none => handleReset p s
    end in
  (p', queueRender p true s').

(** The props after [setNoise(n)] and [setPosterize(l)], the two
    heavy-only controls. *)
Definition setHeavy (n l : Q) (p : Props) : Props :=
  mkProps (imageBitmap p) (brightness p) (contrast p) (saturation p) (hue p)
          (exposureEV p) (burn p) n l (preset p) (outW p) (outH p).

(** The event [e] raised from a render whose props are [q]. *)
Definition raisedFrom (q : Props) (e : Event) : Event :=
  match e with
  | QueueRender _ requestFull => QueueRender q requestFull
  | StartScrub _ => StartScrub q
  | EndScrub _ => EndScrub q
  | AnimationFrame => AnimationFrame
  end.

Definition isStartScrub (e : Event) : bool :=
  match e with StartScrub _ => true | _ => false end.

(** *** Overlay helpers *)

(** [drawScanlines]: the [y] of the rows it fills,
    [for (let y = 0; y < h; y += 2)]; at most [fuel] iterations. *)
Fixpoint scanlinesFrom (fuel : nat) (y h : Z) : list Z :=
  match fuel with
  | O => []
  | S fuel' => if (y <? h)%Z then y :: scanlinesFrom fuel' (y + 2)%Z h else []
  end.

(** [h] iterations are enough for the loop to end. *)
Definition scanlineRows (h : Z) : list Z := scanlinesFrom (Z.to_nat h) 0%Z h.

(** The alpha values an overlay helper hands to the canvas: the alphas of
    its gradient stops, or its [globalAlpha]. *)
Definition overlayAlphas (o : Overlay) : list Q :=
  match o with
  | Vignette _ _ strength => [0; strength]
  | FilmBurn _ _ energy => [0.7 * energy; 0.35 * energy; 0]
  | WarmEdgeBurn _ _ strength => [0; Math_min 0.5 strength]
  | Scanlines _ _ opacity => [opacity]
  | ChromAb _ _ => [0.35; 0.35]
  end.

End Studio.

(** ** [src/App.tsx]: exposure and extra gain, no render queue *)

Module FreeBuild.
Import JS.
Local Open Scope Q_scope.

Record Props := mkProps {
  imageBitmap : option Raster;
  brightness : Q;   (* 50-400 (%) *)
  contrast : Q;
  saturation : Q;
  hue : Q;
  exposureEV : Q;   (* -2.0 .. +2.0 (stops) *)
  noise : Q;        (* 0..1 *)
  posterize : Q;    (* 0..8 *)
  preset : PresetType;
  outW : Z;
  outH : Z
}.

Definition clamp (v : Q) : Q :=
  Math_max 0 (Math_min 255 (inject_Z (ToInt32 v))).

Definition roundStep (v step : Q) : Q := inject_Z (Math_round (v / step)) * step.

(** The constants [cssB] and [extraGain] of [renderFrame]. *)
Definition cssB (p : Props) : Q := Math_min (brightness p) 200.

Definition extraGain (p : Props) : Q := Math_max 1 (brightness p / 200).

Definition gradeFilter (p : Props) : CssFilter :=
  mkFilter (cssB p) (contrast p) (saturation p) (hue p).

Definition needsPixel (p : Props) : bool :=
  negb (Qeq_bool (exposureEV p) 0) || gt (brightness p) 200
  || gt (posterize p) 1 || gt (noise p) 0.

(** [r], [g], [b] of one loop iteration just before the stores. *)
Definition shade `{Host} (p : Props) (u : Q) (d0 d1 d2 : Z) : Q * Q * Q :=
  let exposureGain := Math_pow 2 (exposureEV p) in
  let extraGain := extraGain p in
  let doPosterize := gt (posterize p) 1 in
  let step := if doPosterize then 255 / (posterize p - 1) else 0 in
  let doNoise := gt (noise p) 0 in
  let noiseAmp := if doNoise then noise p * 255 else 0 in
  let r := inject_Z d0 * exposureGain * extraGain in
  let g := inject_Z d1 * exposureGain * extraGain in
  let b := inject_Z d2 * exposureGain * extraGain in
  let '(r, g, b) :=
    if doPosterize
    then (roundStep r step, roundStep g step, roundStep b step)
    else (r, g, b) in
  if doNoise then
    let n := (u - 0.5) * 2 * noiseAmp in
    (r + n, g + n, b + n)
  else (r, g, b).

Definition pixelStep `{Host} (p : Props) (rnd : nat -> Q)
    (k : nat) (d : list Z) : list Z :=
  let i := (4 * k)%nat in
  let '(r, g, b) :=
    shade p (rnd k) (d !!! i) (d !!! (i + 1)%nat) (d !!! (i + 2)%nat) in
  <[(i + 2)%nat := ToUint8Clamp (clamp b)]>
    (<[(i + 1)%nat := ToUint8Clamp (clamp g)]>
       (<[i := ToUint8Clamp (clamp r)]> d)).
  (* d[i+3] alpha unchanged *)

Definition pixelPass `{Host} (p : Props) (rnd : nat -> Q) (d : list Z)
  : list Z :=
  forEachPixel (pixelStep p rnd) d.

(** The three bytes one iteration stores, from the three it read. *)
Definition stored `{Host} (p : Props) (u : Q) (d0 d1 d2 : Z) : Z * Z * Z :=
  let '(r, g, b) := shade p u d0 d1 d2 in
  (ToUint8Clamp (clamp r), ToUint8Clamp (clamp g), ToUint8Clamp (clamp b)).

(** The working canvas of [renderFrame] when it is blitted. *)
Definition workPixels `{Host} (p : Props) (rnd : nat -> Q) (bmp : Raster)
  : list Z :=
  let cw := or_else (outW p) (width bmp) in
  let ch := or_else (outH p) (height bmp) in
  let graded := drawImage (Some (gradeFilter p)) bmp cw ch in
  if needsPixel p then pixelPass p rnd graded else graded.

Definition handleDownload (canvas : option Raster) : list Effect :=
  match canvas with
  | None => []
  | Some c =>
      if (width c =? 0)%Z || (height c =? 0)%Z
      then [Alert "Nothing to download yet."]
      else [Download "deepfry.jpg" "image/jpeg" 0.9 c]
  end.

End FreeBuild.

(** ** The earliest build: presets only, passes on the visible canvas *)

Module ProTeaser.
Import JS.
Local Open Scope Q_scope.

(** The adjustment state of the component. *)
Record Settings := mkSettings {
  brightness : Q;
  contrast : Q;
  saturation : Q;
  hue : Q;
  sharp : Q;
  noise : Q;
  posterize : Q;
  preset : PresetType
}.

Definition initial : Settings := mkSettings 120 120 140 0 1 0.08 0 none.

Definition handleReset (s : Settings) : Settings :=
  mkSettings 120 120 140 0 1 0.08 0 none.

Definition applyPreset (p : PresetType) (s : Settings) : Settings :=
  match p with
  | film => mkSettings 115 130 150 10 1 0.12 0 film
  | lofi => mkSettings 110 95 70 8 0 0.06 0 lofi
  | vhs => mkSettings 115 130 120 0 1 0.08 0 vhs
  | ultra => mkSettings 160 200 220 20 3 0.2 6 ultra
  | none => handleReset s
  end.

(** The handlers that write the adjustment state; this build has no
    sliders. *)
Inductive Action :=
| ApplyPreset (p : PresetType)
| Reset
| MakeAnother.

Definition act (s : Settings) (a : Action) : Settings :=
  match a with
  | ApplyPreset p => applyPreset p s
  | Reset => handleReset s
  | MakeAnother => handleReset s
  end.

Definition after (acts : list Action) : Settings := fold_left act acts initial.

Definition clamp (v : Q) : Q := Math_max 0 (Math_min 255 v).

Definition roundStep (v step : Q) : Q := inject_Z (Math_round (v / step)) * step.

Definition gradeFilter (s : Settings) : CssFilter :=
  mkFilter (brightness s) (contrast s) (saturation s) (hue s).

(** 3) Posterize: the loop body. *)
Definition posterizeStep (step : Q) (k : nat) (d : list Z) : list Z :=
  let i := (4 * k)%nat in
  <[(i + 2)%nat := ToUint8Clamp (roundStep (inject_Z (d !!! (i + 2)%nat)) step)]>
    (<[(i + 1)%nat := ToUint8Clamp (roundStep (inject_Z (d !!! (i + 1)%nat)) step)]>
       (<[i := ToUint8Clamp (roundStep (inject_Z (d !!! i)) step)]> d)).

(** The three bytes one posterize iteration stores, from the three it
    read. *)
Definition posterized (step : Q) (d0 d1 d2 : Z) : Z * Z * Z :=
  (ToUint8Clamp (roundStep (inject_Z d0) step),
   ToUint8Clamp (roundStep (inject_Z d1) step),
   ToUint8Clamp (roundStep (inject_Z d2) step)).

(** 4) Noise. *)
Definition noiseStep (s : Q) (rnd : nat -> Q) (k : nat) (d : list Z) : list Z :=
  let i := (4 * k)%nat in
  let n := (rnd k - 0.5) * 2 * s in
  <[(i + 2)%nat := ToUint8Clamp (clamp (inject_Z (d !!! (i + 2)%nat) + n))]>
    (<[(i + 1)%nat := ToUint8Clamp (clamp (inject_Z (d !!! (i + 1)%nat) + n))]>
       (<[i := ToUint8Clamp (clamp (inject_Z (d !!! i) + n))]> d)).

(** The three bytes one noise iteration stores, from the three it read. *)
Definition noised (s : Q) (u : Q) (d0 d1 d2 : Z) : Z * Z * Z :=
  let n := (u - 0.5) * 2 * s in
  (ToUint8Clamp (clamp (inject_Z d0 + n)),
   ToUint8Clamp (clamp (inject_Z d1 + n)),
   ToUint8Clamp (clamp (inject_Z d2 + n))).

(** Steps 3 and 4 of the render effect on the pixels of the visible
    canvas. *)
Definition pixelPasses (st : Settings) (rnd : nat -> Q) (d : list Z) : list Z :=
  let d :=
    if gt (posterize st) 1
    then forEachPixel (posterizeStep (255 / (posterize st - 1))) d
    else d in
  if gt (noise st) 0
  then forEachPixel (noiseStep (noise st * 255) rnd) d
  else d.

(** [canvas.width] and [canvas.height] as the render effect sets them,
    from the [outW] and [outH] of the render and its bitmap. *)
Definition canvasSize (outW outH : Z) (bmp : Raster) : Z * Z :=
  (or_else outW (width bmp), or_else outH (height bmp)).

Definition handleDownload (canvas : option Raster) : list Effect :=
  match canvas with
  | None => []
  | Some c => [Download "deepfry.jpg" "image/jpeg" 0.9 c]
  end.

End ProTeaser.

(** ** Sample inputs *)

(** A 20 x 10 mid-gray opaque bitmap. *)
Definition grayBitmap : Raster :=
  mkRaster 20 10 (concat (replicate 200 [128; 128; 128; 255])).

(** Two opaque white pixels. *)
Definition whiteBitmap : Raster :=
  mkRaster 2 1 [255; 255; 255; 255; 255; 255; 255; 255].

(** Neutral grade, no burn, the default noise, two posterize levels. *)
Definition posterProps : Studio.Props :=
  Studio.mkProps (Some whiteBitmap) 100 100 100 0 0 0 0.08 2 none 2 1.

(** The same with the noise off. *)
Definition quietPosterProps : Studio.Props :=
  Studio.mkProps (Some whiteBitmap) 100 100 100 0 0 0 0 2 none 2 1.

(** Two posterize levels and no noise in the earliest build. *)
Definition quietPosterSettings : ProTeaser.Settings :=
  ProTeaser.mkSettings 120 120 140 0 1 0 2 none.

(** [src/App.tsx]: neutral grade and gain, posterize and noise off. *)
Definition neutralFreeProps : FreeBuild.Props :=
  FreeBuild.mkProps (Some whiteBitmap) 100 100 100 0 0 0 0 none 2 1.

(** [src/App.tsx]: the adjustments of [quietPosterProps]. *)
Definition posterFreeProps : FreeBuild.Props :=
  FreeBuild.mkProps (Some whiteBitmap) 100 100 100 0 0 0 2 none 2 1.

(** Neutral grade and gains, full burn, posterize and noise off. *)
Definition burnProps : Studio.Props :=
  Studio.mkProps (Some whiteBitmap) 100 100 100 0 0 100 0 0 none 2 1.

(** The adjustments the component starts with, over [grayBitmap]. *)
Definition defaultProps : Studio.Props :=
  Studio.mkProps (Some grayBitmap) 120 120 140 0 0 35 0.08 0 none 20 10.

(** A 180 x 340 mid-gray opaque bitmap, with the default adjustments. *)
Definition tallBitmap : Raster :=
  mkRaster 180 340 (concat (replicate (180 * 340) [128; 128; 128; 255])).

Definition tallProps : Studio.Props :=
  Studio.mkProps (Some tallBitmap) 120 120 140 0 0 35 0.08 0 none 180 340.

(** A 2000 x 1 bitmap as the first image: the props before it arrives, of
    the render in which it arrives, the sizing effect not having run yet,
    and of the render after it. *)
Definition wideBitmap : Raster :=
  mkRaster 2000 1 (concat (replicate 2000 [128; 128; 128; 255])).

Definition blankProps : Studio.Props :=
  Studio.mkProps None 120 120 140 0 0 35 0.08 0 none 0 0.

Definition unsizedProps : Studio.Props :=
  Studio.mkProps (Some wideBitmap) 120 120 140 0 0 35 0.08 0 none 0 0.

Definition sizedProps : Studio.Props :=
  Studio.mkProps (Some wideBitmap) 120 120 140 0 0 35 0.08 0 none 1600 1.

(** A host whose canvas ignores filters, scaling and overlays, and whose
    [Math.pow] is exact on integer exponents: enough to run the pixel pass
    on concrete inputs. *)
Definition plainHost : Host :=
  {| Math_pow x y := Qpower x (Qfloor y);
     drawImage _ src _ _ := data src;
     drawScreen _ dst _ := data dst;
     paint _ c := c |}.

(** The draws of [Math.random()] all equal to [u]. *)
Definition constantDraws (u : Q) : nat -> Q := fun _ => u.

(** ** Vocabulary of the specification *)

Module Spec.
Local Open Scope Q_scope.

(** The documented range of every adjustment. *)
Definition inRange (p : Studio.Props) : Prop :=
  50 <= Studio.brightness p <= 400
  /\ 50 <= Studio.contrast p <= 250
  /\ 0 <= Studio.saturation p <= 300
  /\ -180 <= Studio.hue p <= 180
  /\ -2 <= Studio.exposureEV p <= 2
  /\ 0 <= Studio.burn p <= 100
  /\ 0 <= Studio.noise p <= 1
  /\ 0 <= Studio.posterize p <= 8.

(** What [Math.pow(2, exposureEV)] satisfies for an exposure in range. *)
Definition gainInRange `{Host} (p : Studio.Props) : Prop :=
  1 # 4 <= Math_pow 2 (Studio.exposureEV p) <= 4.

(** The data of an [ImageData]: whole RGBA pixels of bytes. *)
Definition imageData (d : list Z) : Prop :=
  (exists n, length d = (4 * n)%nat) /\ Forall (fun b => (0 <= b <= 255)%Z) d.

(** [Math.random()] returns a number in [0, 1). *)
Definition unitDraws (rnd : nat -> Q) : Prop := forall k, 0 <= rnd k < 1.

(** [clamp(x, lo, hi)] *)
Definition clampTo (x lo hi : Q) : Q :=
  if Qle_bool x lo then lo else if Qle_bool hi x then hi else x.

(** The burn transform in the words of section 4.3, step 4, on the
    channels after gain. *)
Definition burnTransform (burn : Q) (c : Q * Q * Q) : Q * Q * Q :=
  let '(r, g, b) := c in
  let burnAmount := clampTo (burn / 100) 0 1 in
  let L := 0.2126 * r + 0.7152 * g + 0.0722 * b in
  let t := clampTo ((L - 110) / 145) 0 1 in
  (r * (1 + 1.15 * burnAmount * t) + 255 * 0.45 * burnAmount * t * 0.6,
   g * (1 + 0.7475 * burnAmount * t) + 255 * 0.45 * burnAmount * t * 0.3,
   b * (1 + 0.4025 * burnAmount * t) - 255 * 0.28 * burnAmount * t * 0.2).

(** One dimension of the preview buffer in the words of section 8:
    0.35 of the output dimension, rounded down, at least 1. *)
Definition previewSize (output : Z) : Z :=
  Z.max 1 (Qfloor (0.35 * inject_Z output)).

(** The size an overlay helper is called with. *)
Definition overlaySize (o : Overlay) : Z * Z :=
  match o with
  | Vignette w h _ | FilmBurn w h _ | WarmEdgeBurn w h _
  | Scanlines w h _ | ChromAb w h => (w, h)
  end.

(** The three channels all lie between [lo] and [hi]. *)
Definition within (lo hi : Q) (c : Q * Q * Q) : Prop :=
  lo <= c.1.1 <= hi /\ lo <= c.1.2 <= hi /\ lo <= c.2 <= hi.

(** The three colour bytes of the pixel [j] are all 0 or 255. *)
Definition twoLevel (out : list Z) (j : nat) : Prop :=
  forall c, (c < 3)%nat ->
    out !! (4 * j + c)%nat = Some 0%Z \/ out !! (4 * j + c)%nat = Some 255%Z.

(** Componentwise equality of rational triples. *)
Definition eq3 (c c' : Q * Q * Q) : Prop :=
  c.1.1 == c'.1.1 /\ c.1.2 == c'.1.2 /\ c.2 == c'.2.

End Spec.

(** * Binary64 rounding and the preview scale *)

Section Binary64.
Import JS.
Local Open Scope Q_scope.

Lemma roundHalfEven_near (x : Q) :
  x - (1 # 2) <= inject_Z (roundHalfEven x) <= x + (1 # 2).
Proof.
  unfold roundHalfEven.
  pose proof (Qfloor_le x) as Hlo. pose proof (Qlt_floor x) as Hhi.
  rewrite inject_Z_plus in Hhi. change (inject_Z 1) with 1 in Hhi.
  set (f := Qfloor x) in *.
  destruct (Qcompare (x - inject_Z f) (1 # 2)) eqn:E.
  - apply Qeq_alt in E.
    destruct (Z.even f); rewrite ?inject_Z_plus; change (inject_Z 1) with 1; lra.
  - apply Qlt_alt in E. lra.
  - apply Qgt_alt in E. rewrite inject_Z_plus. change (inject_Z 1) with 1. lra.
Qed.

Lemma two_power (k : Z) : (0 <= k)%Z -> inject_Z (2 ^ k) == 2 ^ k.
Proof. intros Hk. now rewrite Zpower_Qpower. Qed.

Lemma two_power_pos (k : Z) : 0 < 2 ^ k.
Proof. apply Qpower_0_lt. reflexivity. Qed.

(** From a quarter up, the unit in the last place of [x] is at most
    [x / 2 ^ 52]: the significand has its 53 bits. *)
Lemma ulpExponent_below (x : Q) :
  1 # 4 <= x -> 2 ^ ulpExponent x * 2 ^ 52 <= x.
Proof.
  intros Hx. unfold ulpExponent.
  destruct x as [n d]. cbn [Qnum Qden].
  assert (0 < n)%Z as Hn.
  { unfold Qle in Hx. cbn in Hx. lia. }
  assert (Zpos d <= 4 * n)%Z as Hd.
  { unfold Qle in Hx. cbn in Hx. lia. }
  pose proof (Z.log2_spec n Hn) as [Ln _].
  pose proof (Z.log2_spec (Zpos d) eq_refl) as [_ Ld].
  pose proof (Z.log2_nonneg n) as Nn.
  pose proof (Z.log2_nonneg (Zpos d)) as Nd.
  assert (Z.log2 (Zpos d) <= Z.log2 n + 2)%Z as Hl.
  { etransitivity; [apply Z.log2_le_mono, Hd |].
    replace (4 * n)%Z with (n * 2 ^ 2)%Z by lia.
    rewrite Z.log2_mul_pow2; lia. }
  set (ln := Z.log2 n) in *. set (ld := Z.log2 (Zpos d)) in *.
  set (e := (if Qle_bool (2 ^ (ln - ld)) (n # d) then ln - ld else ln - ld - 1)%Z).
  assert (2 ^ e <= n # d /\ (- 3 <= e)%Z) as [He Hge].
  { unfold e. destruct (Qle_bool (2 ^ (ln - ld)) (n # d)) eqn:E.
    - split; [now apply Qle_bool_iff | lia].
    - split; [| lia].
      replace (ln - ld - 1)%Z with (ln + - (Z.succ ld))%Z by lia.
      rewrite Qpower_plus by discriminate. rewrite Qpower_opp.
      rewrite <- !two_power by lia.
      rewrite (Qmake_Qdiv n d).
      assert (0 < inject_Z (2 ^ Z.succ ld)) as P1.
      { rewrite two_power by lia. apply two_power_pos. }
      assert (0 < inject_Z (Zpos d)) as P2 by reflexivity.
      assert (inject_Z (2 ^ ln) <= inject_Z n) as A by now rewrite <- Zle_Qle.
      assert (inject_Z (Zpos d) <= inject_Z (2 ^ Z.succ ld)) as B
        by (rewrite <- Zle_Qle; lia).
      assert (0 < inject_Z (2 ^ ln)) as P3.
      { rewrite two_power by lia. apply two_power_pos. }
      apply Qle_shift_div_l; [exact P2 |].
      assert (inject_Z (2 ^ ln) * / inject_Z (2 ^ Z.succ ld) * inject_Z (Zpos d)
              == inject_Z (2 ^ ln) * inject_Z (Zpos d) / inject_Z (2 ^ Z.succ ld))
        as -> by (unfold Qdiv; ring).
      apply Qle_shift_div_r; [exact P1 |]. nra. }
  rewrite Z.max_l by lia.
  replace (e - 52)%Z with (e + - 52)%Z by lia.
  rewrite Qpower_plus by discriminate.
  rewrite <- Qmult_assoc.
  assert (2 ^ (-52) * 2 ^ 52 == 1) as -> by reflexivity.
  now rewrite Qmult_1_r.
Qed.

(** Rounding moves a number from a quarter up by at most one part in
    [2 ^ 53]. *)
Lemma round64_near (x : Q) :
  1 # 4 <= x ->
  x * (1 - (1 # 9007199254740992)) <= round64 x
  /\ round64 x <= x * (1 + (1 # 9007199254740992)).
Proof.
  intros Hx. unfold round64.
  assert (Qeq_bool x 0 = false) as ->.
  { apply not_true_is_false. intros E. apply Qeq_bool_eq in E. lra. }
  assert (Qabs x = x) as ->.
  { destruct x as [n d]. unfold Qabs. f_equal. apply Z.abs_eq.
    unfold Qle in Hx. cbn in Hx. lia. }
  pose proof (ulpExponent_below x Hx) as Hu.
  pose proof (two_power_pos (ulpExponent x)) as Hp.
  set (ulp := 2 ^ ulpExponent x) in *.
  change (2 ^ 52) with 4503599627370496 in Hu.
  pose proof (roundHalfEven_near (x / ulp)) as [Hlo Hhi].
  set (m := inject_Z (roundHalfEven (x / ulp))) in *.
  assert (ulp * (x / ulp) == x) as Hq by (apply Qmult_div_r; lra).
  set (q := x / ulp) in *.
  assert (x - ulp * (1 # 2) <= m * ulp) as A by nra.
  assert (m * ulp <= x + ulp * (1 # 2)) as B by nra.
  split; lra.
Qed.

(** The number the literal [0.35] denotes. *)
Lemma previewScale_literal :
  Studio.previewScale true == 3152519739159347 # 9007199254740992.
Proof. vm_compute. reflexivity. Qed.

Lemma times_one (x : Q) : times x (Studio.previewScale false) = x.
Proof. reflexivity. Qed.

(** The product [c * 0.35] of the code against the exact product of [c]
    and the number that [0.35] denotes. *)
Lemma times_preview (c : Z) :
  (1 <= c)%Z ->
  let x := inject_Z c * (3152519739159347 # 9007199254740992) in
  x * (1 - (1 # 9007199254740992)) <= times (inject_Z c) (Studio.previewScale true)
  /\ times (inject_Z c) (Studio.previewScale true)
     <= x * (1 + (1 # 9007199254740992)).
Proof.
  intros Hc x. unfold times.
  assert (Qeq_bool (Studio.previewScale true) 1 = false) as ->
    by (vm_compute; reflexivity).
  assert (1 <= inject_Z c) as Qc.
  { change 1 with (inject_Z 1). rewrite <- Zle_Qle. exact Hc. }
  assert (inject_Z c * Studio.previewScale true == x) as E.
  { unfold x. now rewrite previewScale_literal. }
  assert (1 # 4 <= inject_Z c * Studio.previewScale true) as Hq.
  { rewrite E. unfold x. lra. }
  destruct (round64_near _ Hq) as [Hlo Hhi].
  set (y := inject_Z c * Studio.previewScale true) in *.
  set (r := round64 y) in *. split; lra.
Qed.

Lemma floor_preview (c : Z) : Qfloor (0.35 * inject_Z c) = (7 * c / 20)%Z.
Proof.
  rewrite (Qfloor_comp (0.35 * inject_Z c) (7 * c # 20)).
  - reflexivity.
  - unfold Qeq. cbn. lia.
Qed.

(** One dimension of the working canvas of a preview render against
    [max(1, floor(0.35 * c))]: never above it, at most one below, and
    equal to it unless [c] is a multiple of 20. *)
Lemma preview_dimension (c : Z) :
  (1 <= c < 2 ^ 32)%Z ->
  let W := Z.max 1 (Math_floor (times (inject_Z c) (Studio.previewScale true))) in
  (Spec.previewSize c - 1 <= W <= Spec.previewSize c)%Z
  /\ ((c mod 20 <> 0)%Z -> W = Spec.previewSize c)
  /\ inject_Z W <= Qmax 1 (0.35 * inject_Z c).
Proof.
  intros [Hc Hc'] W.
  destruct (times_preview c Hc) as [Hlo Hhi]. cbv zeta in Hlo, Hhi.
  unfold W, Math_floor, Spec.previewSize.
  set (r := times (inject_Z c) (Studio.previewScale true)) in *.
  pose proof (Qfloor_le r) as Fl. pose proof (Qlt_floor r) as Fu.
  pose proof (Qfloor_le (0.35 * inject_Z c)) as Kl.
  rewrite floor_preview in *.
  pose proof (Z.div_mod (7 * c) 20 ltac:(lia)) as Hdiv.
  pose proof (Z.mod_pos_bound (7 * c) 20 ltac:(lia)) as Hmod.
  set (k := (7 * c / 20)%Z) in *.
  assert (1 <= inject_Z c <= 4294967296) as [Q1 Q2].
  { split.
    - change 1 with (inject_Z 1). rewrite <- Zle_Qle. exact Hc.
    - change 4294967296 with (inject_Z 4294967296). rewrite <- Zle_Qle. lia. }
  assert (20 * inject_Z k <= 7 * inject_Z c <= 20 * inject_Z k + 19) as [K1 K2].
  { change 20 with (inject_Z 20). change 7 with (inject_Z 7).
    change 19 with (inject_Z 19).
    rewrite <- !inject_Z_mult, <- inject_Z_plus, <- !Zle_Qle. lia. }
  assert (Qfloor r <= k)%Z as Up.
  { assert (inject_Z (Qfloor r) < inject_Z (k + 1)) as A.
    { rewrite inject_Z_plus. change (inject_Z 1) with 1. lra. }
    rewrite <- Zlt_Qlt in A. lia. }
  assert (k - 1 <= Qfloor r)%Z as Lo.
  { assert (inject_Z (k - 1) < inject_Z (Qfloor r + 1)) as A.
    { unfold Z.sub. rewrite inject_Z_plus. change (inject_Z (- (1))) with (- (1)).
      lra. }
    rewrite <- Zlt_Qlt in A. lia. }
  split; [lia |]. split.
  - intros Hm.
    assert (20 * k + 1 <= 7 * c)%Z as Hk.
    { pose proof (Z.div_mod c 20 ltac:(lia)) as Hc20.
      pose proof (Z.mod_pos_bound c 20 ltac:(lia)) as Hm20.
      lia. }
    assert (20 * inject_Z k + 1 <= 7 * inject_Z c) as K3.
    { change 20 with (inject_Z 20). change 7 with (inject_Z 7).
      change 1 with (inject_Z 1).
      rewrite <- !inject_Z_mult, <- inject_Z_plus, <- Zle_Qle. exact Hk. }
    assert (k <= Qfloor r)%Z as Lo'.
    { assert (inject_Z k < inject_Z (Qfloor r + 1)) as A by lra.
      rewrite <- Zlt_Qlt in A. lia. }
    lia.
  - destruct (Z.max_spec 1 (Qfloor r)) as [[_ ->] | [_ ->]].
    + eapply Qle_trans; [| apply Q.le_max_r].
      apply Qle_trans with (inject_Z k); [| exact Kl].
      rewrite <- Zle_Qle. exact Up.
    + apply Q.le_max_l.
Qed.

(** Whatever the output size, the working canvas of a preview render is
    not larger than the output. *)
Lemma preview_dimension_le (c : Z) :
  (1 <= c)%Z ->
  (Math_floor (times (inject_Z c) (Studio.previewScale true)) <= c)%Z.
Proof.
  intros Hc. destruct (times_preview c Hc) as [_ Hhi]. cbv zeta in Hhi.
  unfold Math_floor.
  set (r := times (inject_Z c) (Studio.previewScale true)) in *.
  pose proof (Qfloor_le r) as Fl.
  assert (1 <= inject_Z c) as Qc.
  { change 1 with (inject_Z 1). rewrite <- Zle_Qle. exact Hc. }
  rewrite Zle_Qle. lra.
Qed.

Lemma workSize_released CW CH :
  (1 <= CW)%Z -> (1 <= CH)%Z -> Studio.workSize false CW CH = (CW, CH).
Proof.
  intros HW HH. unfold Studio.workSize. rewrite !times_one.
  unfold Math_floor. rewrite !Qfloor_Z. f_equal; lia.
Qed.

Lemma workSize_preview CW CH :
  (1 <= CW < 2 ^ 32)%Z -> (1 <= CH < 2 ^ 32)%Z ->
  let W := (Studio.workSize true CW CH).1 in
  let Hh := (Studio.workSize true CW CH).2 in
  (Spec.previewSize CW - 1 <= W <= Spec.previewSize CW)%Z
  /\ (Spec.previewSize CH - 1 <= Hh <= Spec.previewSize CH)%Z
  /\ ((CW mod 20 <> 0)%Z -> W = Spec.previewSize CW)
  /\ ((CH mod 20 <> 0)%Z -> Hh = Spec.previewSize CH).
Proof.
  intros HW HH. cbv zeta. unfold Studio.workSize. cbn [fst snd].
  destruct (preview_dimension CW HW) as (A & B & _).
  destruct (preview_dimension CH HH) as (A' & B' & _).
  auto.
Qed.

End Binary64.

(** * Properties of the render queue *)

Section RenderQueue.
Import Studio.

Lemma request_when_armed h p s e :
  armed h p s -> isRequest e = true ->
  armed h p (step s e)
  /\ wantFullRef (step s e) = wantFullRef s || requestsFull e
  /\ calls (step s e) = calls s
  /\ nextHandle (step s e) = nextHandle s.
Proof.
  intros [Hr Hc] He. unfold armed.
  destruct e as [q [] | q | q | ]; try discriminate He; cbn;
    unfold startScrub, endScrub, queueRender; cbn; rewrite Hr; cbn;
    rewrite ?Hr, ?Hc, ?orb_true_r, ?orb_false_r; auto.
Qed.

Lemma request_when_idle s e p :
  idle s -> eventProps e = Some p ->
  armed (nextHandle s) p (step s e)
  /\ wantFullRef (step s e) = wantFullRef s || requestsFull e
  /\ calls (step s e) = calls s.
Proof.
  intros [Hr Hc] He. unfold armed.
  destruct e as [q [] | q | q | ]; try discriminate He;
    injection He as ->; cbn;
    unfold startScrub, endScrub, queueRender; cbn; rewrite Hr; cbn;
    rewrite ?Hc, ?orb_true_r, ?orb_false_r; auto.
Qed.

Lemma burst_when_armed es : forall h p s,
  armed h p s -> forallb isRequest es = true ->
  armed h p (run es s)
  /\ wantFullRef (run es s) = wantFullRef s || existsb requestsFull es
  /\ calls (run es s) = calls s.
Proof.
  induction es as [| e es IH]; intros h p s Ha Hes; cbn in *.
  - rewrite orb_false_r. auto.
  - apply andb_prop in Hes as [He Hes].
    destruct (request_when_armed h p s e Ha He) as (Ha' & Hw & Hcalls & _).
    destruct (IH h p _ Ha' Hes) as (Ha'' & Hw' & Hcalls').
    unfold run in *. rewrite Hw', Hw, Hcalls', Hcalls, orb_assoc. auto.
Qed.

Lemma isRequest_eventProps e :
  isRequest e = true -> exists p, eventProps e = Some p.
Proof. destruct e; cbn; intros; try discriminate; eauto. Qed.

(** A burst of requests from the idle state leaves exactly one callback
    behind, closed over the props of the first request. *)
Lemma burst_when_idle e es p s :
  idle s -> eventProps e = Some p -> forallb isRequest es = true ->
  armed (nextHandle s) p (run (e :: es) s)
  /\ wantFullRef (run (e :: es) s)
     = wantFullRef s || existsb requestsFull (e :: es)
  /\ calls (run (e :: es) s) = calls s.
Proof.
  intros Hi He Hes.
  destruct (request_when_idle s e p Hi He) as (Ha & Hw & Hcalls).
  destruct (burst_when_armed es _ _ _ Ha Hes) as (Ha' & Hw' & Hcalls').
  cbn [run fold_left existsb] in *. unfold run in *.
  rewrite Hw', Hw, Hcalls', Hcalls, orb_assoc. auto.
Qed.

(** The refresh of an armed queue runs one render and returns to idle. *)
Lemma frame_when_armed h p s :
  armed h p s ->
  idle (animationFrame s)
  /\ wantFullRef (animationFrame s) = false
  /\ isScrubbingRef (animationFrame s) = isScrubbingRef s
  /\ calls (animationFrame s)
     = calls s ++ [mkCall p (wantFullRef s && negb (isScrubbingRef s))
                          (isScrubbingRef s)].
Proof.
  intros [Hr Hc]. unfold animationFrame, idle. rewrite Hc. cbn. auto.
Qed.

End RenderQueue.

Section ForcedFull.
Import Studio.

(** C1, as the code has it.  When a burst of requests that follows an idle
    queue contains a request with [requestFull = true], the refresh executes
    exactly one render, and that render gets [runHeavyPasses = true] and a
    full-size working canvas exactly when [isScrubbingRef] is false as the
    callback fires.  When it is true the render gets no heavy passes and the
    preview canvas: in each direction [max(1, floor(0.35 * output))] or one
    less, the product [output * 0.35] being rounded to binary64 before the
    floor (for the dimensions of a canvas, below [2 ^ 32]).  The pending
    flag is cleared in either case. *)
Theorem forced_full_honoured_unless_scrubbing
    (s : Sched) (e : Event) (es : list Event) (p : Props) :
  idle s -> eventProps e = Some p -> forallb isRequest es = true ->
  existsb requestsFull (e :: es) = true ->
  let pending := run (e :: es) s in
  let s' := animationFrame pending in
  exists c,
    calls s' = calls s ++ [c]
    /\ callProps c = p
    /\ scrubbing c = isScrubbingRef pending
    /\ runHeavyPasses c = negb (scrubbing c)
    /\ (scrubbing c = false ->
        forall CW CH, 1 <= CW -> 1 <= CH ->
          workSize (scrubbing c) CW CH = (CW, CH))
    /\ (scrubbing c = true ->
        forall CW CH, 1 <= CW < 2 ^ 32 -> 1 <= CH < 2 ^ 32 ->
          Spec.previewSize CW - 1 <= (workSize (scrubbing c) CW CH).1
                                  <= Spec.previewSize CW
          /\ Spec.previewSize CH - 1 <= (workSize (scrubbing c) CW CH).2
                                     <= Spec.previewSize CH)
    /\ wantFullRef s' = false.
Proof.
  intros Hi He Hes Hfull pending s'.
  destruct (burst_when_idle e es p s Hi He Hes) as (Ha & Hw & Hcalls).
  destruct (frame_when_armed _ _ _ Ha) as (_ & Hw' & _ & Hcalls').
  fold pending in Hw, Hcalls, Hcalls'. fold s' in Hw', Hcalls'.
  eexists. split; [rewrite Hcalls', Hcalls; reflexivity |].
  cbn [callProps scrubbing runHeavyPasses].
  rewrite Hw, Hfull, orb_true_r. cbn [andb].
  split; [reflexivity |]. split; [reflexivity |]. split; [reflexivity |].
  split; [| split; [| exact Hw']].
  - intros -> CW CH. apply workSize_released.
  - intros -> CW CH HW HH.
    destruct (workSize_preview CW CH HW HH) as (A & B & _). auto.
Qed.

Lemma forced_full_honoured_unless_scrubbing_witness :
  exists c,
    calls (animationFrame
             (run [EndScrub defaultProps; QueueRender defaultProps false] initial))
    = calls initial ++ [c]
    /\ callProps c = defaultProps
    /\ scrubbing c = false
    /\ runHeavyPasses c = negb (scrubbing c)
    /\ (scrubbing c = false ->
        forall CW CH, 1 <= CW -> 1 <= CH ->
          workSize (scrubbing c) CW CH = (CW, CH))
    /\ (scrubbing c = true ->
        forall CW CH, 1 <= CW < 2 ^ 32 -> 1 <= CH < 2 ^ 32 ->
          Spec.previewSize CW - 1 <= (workSize (scrubbing c) CW CH).1
                                  <= Spec.previewSize CW
          /\ Spec.previewSize CH - 1 <= (workSize (scrubbing c) CW CH).2
                                     <= Spec.previewSize CH)
    /\ wantFullRef
         (animationFrame
            (run [EndScrub defaultProps; QueueRender defaultProps false] initial))
       = false.
Proof.
  apply (forced_full_honoured_unless_scrubbing initial
           (EndScrub defaultProps) [QueueRender defaultProps false] defaultProps).
  - split; reflexivity.
  - reflexivity.
  - reflexivity.
  - reflexivity.
Defined.

(** C1 as stated fails: a request with [requestFull = true] made while a
    control is being dragged is followed by a render without heavy passes
    on a 7 x 3 working canvas for a 20 x 10 output, and the flag is gone
    for the renders after it. *)
Lemma forced_full_dropped_while_scrubbing :
  let burst := [StartScrub defaultProps; QueueRender defaultProps true] in
  let s' := animationFrame (run burst initial) in
  let s'' := animationFrame (run [QueueRender defaultProps false] s') in
  existsb requestsFull burst = true
  /\ calls s' = [mkCall defaultProps false true]
  /\ canvasSize defaultProps grayBitmap = (20, 10)
  /\ workSize true 20 10 = (7, 3)
  /\ wantFullRef s' = false
  /\ calls s'' = [mkCall defaultProps false true; mkCall defaultProps false true].
Proof. repeat split; reflexivity. Qed.

End ForcedFull.

Section Coalescing.
Import Studio.

(** C2.  A burst of one or more requests ([queueRender] calls, directly or
    through [startScrub] and [endScrub]) that follows an idle queue
    registers a single callback; the requests only accumulate into
    [wantFullRef], by disjunction; and the refresh executes exactly one
    render and leaves the queue idle. *)
Theorem burst_coalesces_into_one_render
    (s : Sched) (e : Event) (es : list Event) (p : Props) :
  idle s -> eventProps e = Some p -> forallb isRequest es = true ->
  let pending := run (e :: es) s in
  let s' := animationFrame pending in
  let full := wantFullRef s || existsb requestsFull (e :: es) in
  frameCallbacks pending = [(nextHandle s, p)]
  /\ calls pending = calls s
  /\ wantFullRef pending = full
  /\ calls s'
     = calls s ++ [mkCall p (full && negb (isScrubbingRef pending))
                          (isScrubbingRef pending)]
  /\ idle s' /\ wantFullRef s' = false.
Proof.
  intros Hi He Hes pending s' full.
  destruct (burst_when_idle e es p s Hi He Hes) as ([_ Hc] & Hw & Hcalls).
  destruct (frame_when_armed (nextHandle s) p pending) as (Hi' & Hw' & _ & Hcalls').
  { destruct (burst_when_idle e es p s Hi He Hes) as (Ha & _). exact Ha. }
  fold pending in Hc, Hw, Hcalls. fold s' in Hi', Hw', Hcalls'.
  rewrite Hcalls', Hw, Hcalls. repeat split; auto; apply Hi'.
Qed.

Lemma burst_coalesces_into_one_render_witness :
  let burst := [QueueRender defaultProps false; QueueRender defaultProps true;
                QueueRender defaultProps false] in
  let pending := run burst initial in
  let s' := animationFrame pending in
  frameCallbacks pending = [(1%nat, defaultProps)]
  /\ calls pending = []
  /\ wantFullRef pending = true
  /\ calls s' = [mkCall defaultProps true false]
  /\ idle s' /\ wantFullRef s' = false.
Proof.
  apply (burst_coalesces_into_one_render initial
           (QueueRender defaultProps false)
           [QueueRender defaultProps true; QueueRender defaultProps false]
           defaultProps).
  - split; reflexivity.
  - reflexivity.
  - reflexivity.
Defined.

(** From the initial state the queue is always idle or holds exactly one
    callback, whatever the events. *)
Lemma queue_never_holds_two (es : list Event) :
  idle (run es initial) \/ exists h p, armed h p (run es initial).
Proof.
  assert (G : forall es s,
             idle s \/ (exists h p, armed h p s) ->
             idle (run es s) \/ exists h p, armed h p (run es s)).
  { clear es. induction es as [| e es IH]; intros s Hs; [exact Hs |].
    apply IH. destruct (isRequest e) eqn:He.
    - right. destruct Hs as [Hi | (h & p & Ha)].
      + destruct (isRequest_eventProps e He) as [p Hp].
        destruct (request_when_idle s e p Hi Hp) as [Ha _]. eauto.
      + destruct (request_when_armed h p s e Ha He) as [Ha' _]. eauto.
    - destruct e; try discriminate He. left. cbn.
      destruct Hs as [[Hr Hc] | (h & p & Ha)].
      + unfold animationFrame, idle. rewrite Hc. cbn. auto.
      + apply (frame_when_armed h p s Ha). }
  apply G. left. split; reflexivity.
Qed.

End Coalescing.

(** * The pixel loop writes colour bytes only *)

Section PixelLoop.

(** Three stores at [i], [i+1], [i+2], read back. *)
Lemma lookup_three_stores (d : list Z) (i j : nat) (x y z : Z) :
  <[(i + 2)%nat := z]> (<[(i + 1)%nat := y]> (<[i := x]> d)) !! j
  = if decide (j < length d)%nat then
      if decide (j = i + 2)%nat then Some z
      else if decide (j = i + 1)%nat then Some y
      else if decide (j = i) then Some x
      else d !! j
    else None.
Proof.
  rewrite !list_lookup_insert, !length_insert.
  repeat case_decide; try lia; try reflexivity.
  apply lookup_ge_None. lia.
Qed.

(** The loop body of every build has this shape: three bytes computed from
    the three colour bytes of the pixel, stored over them. *)
Variable body : nat -> list Z -> list Z.
Variable px : nat -> Z -> Z -> Z -> Z * Z * Z.
Hypothesis body_eq : forall k d,
  body k d =
  let i := (4 * k)%nat in
  let '(x, y, z) := px k (d !!! i) (d !!! (i + 1)%nat) (d !!! (i + 2)%nat) in
  <[(i + 2)%nat := z]> (<[(i + 1)%nat := y]> (<[i := x]> d)).

Lemma body_length k d : length (body k d) = length d.
Proof.
  rewrite body_eq. cbv zeta.
  destruct (px k _ _ _) as [[x y] z]. now rewrite !length_insert.
Qed.

Lemma body_lookup_other k d j :
  (j < 4 * k \/ 4 * k + 3 <= j)%nat -> body k d !! j = d !! j.
Proof.
  intros Hj. rewrite body_eq. cbv zeta.
  destruct (px k _ _ _) as [[x y] z]. rewrite lookup_three_stores.
  repeat case_decide; try lia; try reflexivity.
  symmetry. apply lookup_ge_None. lia.
Qed.

Lemma body_lookup_alpha k d j :
  body k d !! (4 * j + 3)%nat = d !! (4 * j + 3)%nat.
Proof.
  rewrite body_eq. cbv zeta.
  destruct (px k _ _ _) as [[x y] z]. rewrite lookup_three_stores.
  repeat case_decide; try lia; try reflexivity.
  symmetry. apply lookup_ge_None. lia.
Qed.

Lemma forPixels_length n : forall k d, length (forPixels body n k d) = length d.
Proof.
  induction n as [| n IH]; intros k d; cbn [forPixels]; [reflexivity |].
  now rewrite IH, body_length.
Qed.

Lemma forPixels_alpha n : forall k d j,
  forPixels body n k d !! (4 * j + 3)%nat = d !! (4 * j + 3)%nat.
Proof.
  induction n as [| n IH]; intros k d j; cbn [forPixels]; [reflexivity |].
  now rewrite IH, body_lookup_alpha.
Qed.

(** Iterations from the pixel [k] on leave the bytes below [4 * k] alone. *)
Lemma forPixels_before n : forall k d j,
  (j < 4 * k)%nat -> forPixels body n k d !! j = d !! j.
Proof.
  induction n as [| n IH]; intros k d j Hj; cbn [forPixels]; [reflexivity |].
  rewrite IH by lia. apply body_lookup_other. lia.
Qed.

Lemma lookup_total_agree (d d' : list Z) j :
  d !! j = d' !! j -> d !!! j = d' !!! j.
Proof. intros E. now rewrite !list_lookup_total_alt, E. Qed.

(** The bytes of a whole pixel after the loop are those its own iteration
    computed from the pixel as it was before the loop. *)
Lemma forPixels_pixel n : forall k d j,
  (k <= j < k + n)%nat -> (4 * j + 2 < length d)%nat ->
  forall x y z,
    px j (d !!! (4 * j)%nat) (d !!! (4 * j + 1)%nat) (d !!! (4 * j + 2)%nat)
    = (x, y, z) ->
    forPixels body n k d !! (4 * j)%nat = Some x
    /\ forPixels body n k d !! (4 * j + 1)%nat = Some y
    /\ forPixels body n k d !! (4 * j + 2)%nat = Some z.
Proof.
  induction n as [| n IH]; intros k d j Hj Hlen x y z Hpx; [lia |].
  cbn [forPixels].
  destruct (decide (j = k)) as [-> | Hne].
  - rewrite !forPixels_before by lia.
    rewrite body_eq. cbv zeta. rewrite Hpx, !lookup_three_stores.
    repeat case_decide; try lia; auto.
  - apply IH; [lia | now rewrite body_length |].
    rewrite <- Hpx. f_equal; apply lookup_total_agree, body_lookup_other; lia.
Qed.

Lemma forEachPixel_pixel d j x y z :
  (4 * j + 2 < length d)%nat ->
  px j (d !!! (4 * j)%nat) (d !!! (4 * j + 1)%nat) (d !!! (4 * j + 2)%nat)
  = (x, y, z) ->
  forEachPixel body d !! (4 * j)%nat = Some x
  /\ forEachPixel body d !! (4 * j + 1)%nat = Some y
  /\ forEachPixel body d !! (4 * j + 2)%nat = Some z.
Proof.
  intros Hlen. apply forPixels_pixel; [| exact Hlen].
  split; [lia |]. apply Nat.div_le_lower_bound; lia.
Qed.

End PixelLoop.

Section AlphaChannel.
Context `{Host}.

Lemma studio_pixelStep_shape p allowHeavy rnd k d :
  Studio.pixelStep p allowHeavy rnd k d =
  let i := (4 * k)%nat in
  let '(x, y, z) :=
    Studio.stored p allowHeavy (rnd k)
                  (d !!! i) (d !!! (i + 1)%nat) (d !!! (i + 2)%nat) in
  <[(i + 2)%nat := z]> (<[(i + 1)%nat := y]> (<[i := x]> d)).
Proof.
  unfold Studio.pixelStep, Studio.stored. cbv zeta.
  now destruct (Studio.shade _ _ _ _ _ _) as [[r g] b].
Qed.

Lemma freebuild_pixelStep_shape p rnd k d :
  FreeBuild.pixelStep p rnd k d =
  let i := (4 * k)%nat in
  let '(x, y, z) :=
    FreeBuild.stored p (rnd k) (d !!! i) (d !!! (i + 1)%nat) (d !!! (i + 2)%nat) in
  <[(i + 2)%nat := z]> (<[(i + 1)%nat := y]> (<[i := x]> d)).
Proof.
  unfold FreeBuild.pixelStep, FreeBuild.stored. cbv zeta.
  now destruct (FreeBuild.shade _ _ _ _ _) as [[r g] b].
Qed.

(** C10.  In both builds that have the per-pixel pass (gain, burn,
    posterize, noise, clamp), and for every adjustment, draw and array, the
    pass returns an array of the same length whose byte at every index
    [4 * j + 3] (alpha) is the byte it had before. *)
Theorem pixel_pass_keeps_alpha
    (p : Studio.Props) (q : FreeBuild.Props) (allowHeavy : bool)
    (rnd : nat -> Q) (d : list Z) (j : nat) :
  Studio.pixelPass p allowHeavy rnd d !! (4 * j + 3)%nat = d !! (4 * j + 3)%nat
  /\ length (Studio.pixelPass p allowHeavy rnd d) = length d
  /\ FreeBuild.pixelPass q rnd d !! (4 * j + 3)%nat = d !! (4 * j + 3)%nat
  /\ length (FreeBuild.pixelPass q rnd d) = length d.
Proof.
  unfold Studio.pixelPass, FreeBuild.pixelPass, forEachPixel.
  repeat split.
  - apply (forPixels_alpha _ (fun k => Studio.stored p allowHeavy (rnd k))).
    apply studio_pixelStep_shape.
  - apply (forPixels_length _ (fun k => Studio.stored p allowHeavy (rnd k))).
    apply studio_pixelStep_shape.
  - apply (forPixels_alpha _ (fun k => FreeBuild.stored q (rnd k))).
    apply freebuild_pixelStep_shape.
  - apply (forPixels_length _ (fun k => FreeBuild.stored q (rnd k))).
    apply freebuild_pixelStep_shape.
Qed.

End AlphaChannel.

(** * Number primitives *)

(** Division by a literal, for the linear arithmetic tactics. *)
Ltac literal_div :=
  unfold Qdiv in *;
  change (/ 100) with (1 # 100) in *;
  change (/ 200) with (1 # 200) in *;
  change (/ 145) with (1 # 145) in *.

Section Numbers.
Import JS.

Lemma Math_max_cases (a b : Q) :
  (a <= b /\ Math_max a b = b)%Q \/ (b < a /\ Math_max a b = a)%Q.
Proof.
  unfold Math_max. destruct (Qle_bool a b) eqn:E.
  - left. split; [now apply Qle_bool_iff | reflexivity].
  - right. split; [| reflexivity].
    apply Qnot_le_lt. intros Hle. apply Qle_bool_iff in Hle. congruence.
Qed.

Lemma Math_min_cases (a b : Q) :
  (a <= b /\ Math_min a b = a)%Q \/ (b < a /\ Math_min a b = b)%Q.
Proof.
  unfold Math_min. destruct (Qle_bool a b) eqn:E.
  - left. split; [now apply Qle_bool_iff | reflexivity].
  - right. split; [| reflexivity].
    apply Qnot_le_lt. intros Hle. apply Qle_bool_iff in Hle. congruence.
Qed.

Lemma gt_true (a b : Q) : gt a b = true <-> (b < a)%Q.
Proof.
  unfold gt. rewrite negb_true_iff. split.
  - intros E. apply Qnot_le_lt. intros Hle. apply Qle_bool_iff in Hle. congruence.
  - intros Hlt. destruct (Qle_bool a b) eqn:E; [| reflexivity].
    apply Qle_bool_iff in E. lra.
Qed.

Lemma gt_false (a b : Q) : gt a b = false <-> (a <= b)%Q.
Proof.
  unfold gt. rewrite negb_false_iff. apply Qle_bool_iff.
Qed.

Lemma wrap32_small z : - 2 ^ 31 <= z < 2 ^ 31 -> wrap32 z = z.
Proof. intros Hz. unfold wrap32. rewrite Z.mod_small; lia. Qed.

Lemma truncate_bounds (v : Q) (lo hi : Z) :
  (lo <= 0 <= hi)%Z -> (inject_Z lo <= v <= inject_Z hi)%Q ->
  (lo <= truncate v <= hi)%Z.
Proof.
  intros Hz [Hlo Hhi]. unfold truncate.
  destruct (Qle_bool 0 v) eqn:E.
  - apply Qle_bool_iff in E. split.
    + transitivity 0; [lia |]. rewrite <- (Qfloor_Z 0). now apply Qfloor_resp_le.
    + rewrite <- (Qfloor_Z hi). now apply Qfloor_resp_le.
  - assert (v < 0)%Q as Hneg.
    { apply Qnot_le_lt. intros Hle. apply Qle_bool_iff in Hle. congruence. }
    split.
    + rewrite <- (Qceiling_Z lo). now apply Qceiling_resp_le.
    + transitivity 0; [| lia]. rewrite <- (Qceiling_Z 0).
      apply Qceiling_resp_le. change (inject_Z 0) with 0%Q. lra.
Qed.

Lemma ToUint8Clamp_byte z : 0 <= z <= 255 -> ToUint8Clamp (inject_Z z) = z.
Proof.
  intros Hz. unfold ToUint8Clamp.
  destruct (Qle_bool (inject_Z z) 0) eqn:E0.
  { apply Qle_bool_iff in E0. change 0%Q with (inject_Z 0) in E0.
    rewrite <- Zle_Qle in E0. lia. }
  destruct (Qle_bool 255 (inject_Z z)) eqn:E1.
  { apply Qle_bool_iff in E1. change 255%Q with (inject_Z 255) in E1.
    rewrite <- Zle_Qle in E1. lia. }
  rewrite Qfloor_Z.
  assert (Qcompare (inject_Z z - inject_Z z) (1 # 2) = Lt) as ->; [| reflexivity].
  rewrite <- Qlt_alt. lra.
Qed.

Lemma clamp_stores_byte v :
  ToUint8Clamp (Studio.clamp v) = Z.max 0 (Z.min 255 (ToInt32 v)).
Proof.
  unfold Studio.clamp.
  assert (E : Math_max 0 (Math_min 255 (inject_Z (ToInt32 v)))
              = inject_Z (Z.max 0 (Z.min 255 (ToInt32 v)))).
  { generalize (ToInt32 v) as z. intros z.
    destruct (Math_min_cases 255 (inject_Z z)) as [[H1 ->] | [H1 ->]].
    - change 255%Q with (inject_Z 255) in H1. rewrite <- Zle_Qle in H1.
      replace (Z.max 0 (Z.min 255 z)) with 255 by lia.
      destruct (Math_max_cases 0 255) as [[_ ->] | [H2 _]]; [reflexivity |].
      lra.
    - change 255%Q with (inject_Z 255) in H1. rewrite <- Zlt_Qlt in H1.
      destruct (Math_max_cases 0 (inject_Z z)) as [[H2 ->] | [H2 ->]].
      + change 0%Q with (inject_Z 0) in H2. rewrite <- Zle_Qle in H2.
        f_equal. lia.
      + change 0%Q with (inject_Z 0) in H2. rewrite <- Zlt_Qlt in H2.
        replace (Z.max 0 (Z.min 255 z)) with 0 by lia. reflexivity. }
  rewrite E. apply ToUint8Clamp_byte. lia.
Qed.

Local Open Scope Q_scope.

Lemma truncate_inject_Z z : truncate (inject_Z z) = z.
Proof.
  unfold truncate. destruct (Qle_bool 0 (inject_Z z));
    [apply Qfloor_Z | apply Qceiling_Z].
Qed.

Lemma truncate_comp x y : (x == y)%Q -> truncate x = truncate y.
Proof.
  intros E. unfold truncate. rewrite (Qleb_comp 0%Q 0%Q (Qeq_refl 0%Q) x y E).
  destruct (Qle_bool 0 y); [now apply Qfloor_comp | now apply Qceiling_comp].
Qed.

Lemma ToUint8Clamp_comp x y : (x == y)%Q -> ToUint8Clamp x = ToUint8Clamp y.
Proof.
  intros E. unfold ToUint8Clamp.
  rewrite (Qleb_comp x y E 0%Q 0%Q (Qeq_refl 0%Q)).
  rewrite (Qleb_comp 255%Q 255%Q (Qeq_refl 255%Q) x y E).
  rewrite (Qfloor_comp x y E).
  assert (Qcompare (x - inject_Z (Qfloor y)) (1 # 2)
          = Qcompare (y - inject_Z (Qfloor y)) (1 # 2)) as ->; [| reflexivity].
  apply Qcompare_comp; [| reflexivity]. now rewrite E.
Qed.

Lemma Math_max_comp a a' b b' :
  a == a' -> b == b' -> Math_max a b == Math_max a' b'.
Proof.
  intros Ea Eb. unfold Math_max. rewrite (Qleb_comp a a' Ea b b' Eb).
  now destruct (Qle_bool a' b').
Qed.

Lemma Math_min_comp a a' b b' :
  a == a' -> b == b' -> Math_min a b == Math_min a' b'.
Proof.
  intros Ea Eb. unfold Math_min. rewrite (Qleb_comp a a' Ea b b' Eb).
  now destruct (Qle_bool a' b').
Qed.

Lemma gt_comp a a' b b' : a == a' -> b == b' -> gt a b = gt a' b'.
Proof. intros Ea Eb. unfold gt. now rewrite (Qleb_comp a a' Ea b b' Eb). Qed.

(** The specification's [clamp(x, 0, 1)] is the nesting of [Math.min] and
    [Math.max] the source writes, in either order. *)
Lemma clampTo_unit x :
  Spec.clampTo x 0 1 == Math_max 0 (Math_min 1 x)
  /\ Spec.clampTo x 0 1 == Math_min 1 (Math_max 0 x).
Proof.
  unfold Spec.clampTo.
  destruct (Qle_bool x 0) eqn:E0; [apply Qle_bool_iff in E0 |].
  - destruct (Math_min_cases 1 x) as [[? ->] | [? ->]]; [lra |].
    destruct (Math_max_cases 0 x) as [[? ->] | [? ->]];
      (split; [lra |]).
    + destruct (Math_min_cases 1 x) as [[? ->] | [? ->]]; lra.
    + destruct (Math_min_cases 1 0) as [[? ->] | [? ->]]; lra.
  - assert (0 < x) as Hpos.
    { apply Qnot_le_lt. intros Hle. apply Qle_bool_iff in Hle. congruence. }
    destruct (Qle_bool 1 x) eqn:E1; [apply Qle_bool_iff in E1 |].
    + destruct (Math_max_cases 0 x) as [[? ->] | [? ->]]; [| lra].
      destruct (Math_min_cases 1 x) as [[? ->] | [? ->]]; [| lra].
      destruct (Math_max_cases 0 1) as [[? ->] | [? ->]]; lra.
    + assert (x < 1) as Hlt.
      { apply Qnot_le_lt. intros Hle. apply Qle_bool_iff in Hle. congruence. }
      destruct (Math_max_cases 0 x) as [[? ->] | [? ->]]; [| lra].
      destruct (Math_min_cases 1 x) as [[? ->] | [? ->]]; [lra |].
      destruct (Math_max_cases 0 x) as [[? ->] | [? ->]]; lra.
Qed.

Lemma ToInt32_comp x y : x == y -> ToInt32 x = ToInt32 y.
Proof. intros E. unfold ToInt32. now rewrite (truncate_comp x y E). Qed.

(** [Math.round(x)] is the integer [m] with [m <= x + 1/2 < m + 1]. *)
Lemma Math_round_spec x :
  inject_Z (Math_round x) <= x + (1 # 2) /\ x + (1 # 2) < inject_Z (Math_round x) + 1.
Proof.
  unfold Math_round. split; [apply Qfloor_le |].
  pose proof (Qlt_floor (x + (1 # 2))) as Hlt.
  rewrite inject_Z_plus in Hlt. exact Hlt.
Qed.

End Numbers.

(** * Ranges of the channel values before the stores *)

Section ChannelRanges.
Import JS.
Local Open Scope Q_scope.

Lemma unit_clamp x : 0 <= Math_min 1 (Math_max 0 x) <= 1.
Proof.
  destruct (Math_max_cases 0 x) as [[? ->] | [? ->]];
    destruct (Math_min_cases 1 x) as [[? E] | [? E]];
    try (destruct (Math_min_cases 1 0) as [[? ->] | [? ->]]; lra);
    rewrite E; lra.
Qed.

Lemma unit_clamp' x : 0 <= Math_max 0 (Math_min 1 x) <= 1.
Proof.
  destruct (Math_min_cases 1 x) as [[? ->] | [? ->]].
  - destruct (Math_max_cases 0 1) as [[? ->] | [? ->]]; lra.
  - destruct (Math_max_cases 0 x) as [[? ->] | [? ->]]; lra.
Qed.

Lemma gain_bounds (d : Z) (eg br : Q) :
  (0 <= d <= 255)%Z -> 0 <= eg <= 4 -> 50 <= br <= 400 ->
  0 <= inject_Z d * eg * Math_max 1 (br / 200) <= 2040.
Proof.
  intros Hd Heg Hbr.
  assert (0 <= inject_Z d <= 255) as Hd'.
  { change 0 with (inject_Z 0). change 255 with (inject_Z 255).
    rewrite <- !Zle_Qle. lia. }
  assert (1 <= Math_max 1 (br / 200) <= 2) as Hx.
  { destruct (Math_max_cases 1 (br / 200)) as [[? ->] | [? ->]];
      literal_div; lra. }
  set (x := Math_max 1 (br / 200)) in *. set (a := inject_Z d) in *.
  assert (0 <= a * eg <= 1020) by nra.
  nra.
Qed.

Lemma burnStage_bounds ba c :
  0 <= ba <= 1 -> Spec.within 0 2040 c ->
  Spec.within (-15) 4455 (Studio.burnStage ba c).
Proof.
  destruct c as [[r g] b]. intros Hba (Hr & Hg & Hb). cbn [fst snd] in Hr, Hg, Hb.
  unfold Studio.burnStage.
  destruct (gt ba 0); [| unfold Spec.within; cbn [fst snd]; lra].
  pose proof (unit_clamp ((Studio.luminance (r, g, b) - 110) / 145)) as Ht.
  fold (Studio.highlightMask (Studio.luminance (r, g, b))) in Ht.
  set (t := Studio.highlightMask (Studio.luminance (r, g, b))) in *.
  assert (0 <= ba * t <= 1) as Hw by nra.
  unfold Spec.within; cbn [fst snd].
  assert (0 <= r * (ba * t) <= 2040) by nra.
  assert (0 <= g * (ba * t) <= 2040) by nra.
  assert (0 <= b * (ba * t) <= 2040) by nra.
  repeat split; nra.
Qed.

(** Quantising to a positive step at most doubles the magnitude. *)
Lemma quantise_bounds (v step lo hi : Q) :
  0 < step -> lo <= 0 -> 0 <= hi -> lo <= v <= hi ->
  2 * lo <= inject_Z (Math_round (v / step)) * step <= 2 * hi.
Proof.
  intros Hstep Hlo Hhi Hv.
  assert (step * (v / step) == v) as Hx.
  { apply Qmult_div_r. lra. }
  destruct (Math_round_spec (v / step)) as [H1 H2].
  set (x := v / step) in *.
  set (m := Math_round x) in *.
  destruct (Z_lt_le_dec m 0) as [Hneg | Hnn].
  - (* m <= -1 *)
    assert (inject_Z m <= -1) as Hm.
    { change (-1) with (inject_Z (-1)). rewrite <- Zle_Qle. lia. }
    nra.
  - destruct (Z.eq_dec m 0%Z) as [E | Hpos].
    + rewrite E. change (inject_Z 0) with 0. lra.
    + assert (1 <= inject_Z m) as Hm.
      { change 1 with (inject_Z 1). rewrite <- Zle_Qle. lia. }
      nra.
Qed.

Lemma within_weaken lo hi lo' hi' c :
  lo' <= lo -> hi <= hi' -> Spec.within lo hi c -> Spec.within lo' hi' c.
Proof. unfold Spec.within. intros ? ? (? & ? & ?). repeat split; lra. Qed.

Lemma posterizeStage_bounds doPosterize step lo hi c :
  (doPosterize = true -> 0 < step) -> lo <= 0 -> 0 <= hi ->
  Spec.within lo hi c ->
  Spec.within (2 * lo) (2 * hi) (Studio.posterizeStage doPosterize step c).
Proof.
  destruct c as [[r g] b]. intros Hstep Hlo Hhi (Hr & Hg & Hb).
  cbn [fst snd] in Hr, Hg, Hb. unfold Studio.posterizeStage.
  destruct doPosterize.
  - specialize (Hstep eq_refl). unfold Spec.within; cbn [fst snd].
    split; [| split]; apply quantise_bounds; auto; lra.
  - unfold Spec.within; cbn [fst snd]. lra.
Qed.

Lemma noiseStage_bounds doNoise noiseAmp u lo hi c :
  0 <= noiseAmp <= 255 -> 0 <= u < 1 -> Spec.within lo hi c ->
  Spec.within (lo - 255) (hi + 255) (Studio.noiseStage doNoise noiseAmp u c).
Proof.
  destruct c as [[r g] b]. intros Hamp Hu (Hr & Hg & Hb).
  cbn [fst snd] in Hr, Hg, Hb. unfold Studio.noiseStage.
  destruct doNoise; unfold Spec.within; cbn [fst snd]; [| lra].
  assert (- 255 <= (u - 0.5) * 2 * noiseAmp <= 255) by nra.
  lra.
Qed.

Lemma shade_bounds `{Host} p allowHeavy u d0 d1 d2 :
  Spec.inRange p -> Spec.gainInRange p -> 0 <= u < 1 ->
  (0 <= d0 <= 255)%Z -> (0 <= d1 <= 255)%Z -> (0 <= d2 <= 255)%Z ->
  Spec.within (-285) 9165 (Studio.shade p allowHeavy u d0 d1 d2).
Proof.
  intros (Hbr & _ & _ & _ & _ & Hburn & Hnoise & Hpost) Hgain Hu H0 H1 H2.
  unfold Spec.gainInRange in Hgain. unfold Studio.shade, Studio.extraGain.
  set (eg := Math_pow 2 (Studio.exposureEV p)) in *.
  assert (Spec.within 0 2040
            (inject_Z d0 * eg * Math_max 1 (Studio.brightness p / 200),
             inject_Z d1 * eg * Math_max 1 (Studio.brightness p / 200),
             inject_Z d2 * eg * Math_max 1 (Studio.brightness p / 200))) as Hg.
  { unfold Spec.within; cbn [fst snd].
    split; [| split]; apply gain_bounds; auto; lra. }
  apply (burnStage_bounds (Studio.burnAmt p)) in Hg; [| apply unit_clamp'].
  eapply within_weaken; [| | apply noiseStage_bounds; [| exact Hu |]].
  3: { destruct (gt (Studio.noise p) 0 && allowHeavy); [nra | lra]. }
  3: { apply posterizeStage_bounds; [| | | exact Hg]; try lra.
       intros E. rewrite E. apply andb_prop in E as [E _].
       apply gt_true in E. apply Qlt_shift_div_l; lra. }
  all: lra.
Qed.

End ChannelRanges.

(** * The stored bytes *)

Section ClampedOutput.
Import JS.
Context `{Host}.

Lemma ToInt32_truncate v :
  (- 285 <= v <= 9165)%Q -> ToInt32 v = truncate v.
Proof.
  intros Hv. unfold ToInt32. apply wrap32_small.
  assert (-285 <= truncate v <= 9165); [| lia].
  apply truncate_bounds; [lia | exact Hv].
Qed.

Lemma imageData_byte d i :
  Spec.imageData d -> 0 <= d !!! i <= 255.
Proof.
  intros [_ Hall]. destruct (d !! i) as [b |] eqn:E.
  - rewrite (list_lookup_total_correct _ _ _ E).
    exact (proj1 (Forall_lookup _ _) Hall i b E).
  - rewrite list_lookup_total_alt, E. cbn. lia.
Qed.

(** C3.  For adjustments in their documented ranges (and the gain
    [Math.pow(2, exposureEV)] that goes with them), draws in [0, 1) and
    the bytes of an [ImageData], the three bytes the pixel loop stores for
    every pixel [j] are the values [r], [g], [b] of its iteration truncated
    toward zero and then clamped to 0..255; they are integers between 0
    and 255. *)
Theorem pixel_pass_stores_clamped_truncations
    (p : Studio.Props) (allowHeavy : bool) (rnd : nat -> Q)
    (d : list Z) (j : nat) :
  Spec.inRange p -> Spec.gainInRange p -> Spec.unitDraws rnd ->
  Spec.imageData d -> (4 * j < length d)%nat ->
  let c := Studio.shade p allowHeavy (rnd j)
             (d !!! (4 * j)%nat) (d !!! (4 * j + 1)%nat) (d !!! (4 * j + 2)%nat) in
  let out := Studio.pixelPass p allowHeavy rnd d in
  let byte v := Z.max 0 (Z.min 255 (truncate v)) in
  out !! (4 * j)%nat = Some (byte c.1.1)
  /\ out !! (4 * j + 1)%nat = Some (byte c.1.2)
  /\ out !! (4 * j + 2)%nat = Some (byte c.2)
  /\ 0 <= byte c.1.1 <= 255 /\ 0 <= byte c.1.2 <= 255 /\ 0 <= byte c.2 <= 255.
Proof.
  intros Hp Hgain Hrnd Hd Hj c out byte.
  assert (4 * j + 2 < length d)%nat as Hlen.
  { destruct Hd as [[n Hn] _]. lia. }
  assert (Spec.within (-285) 9165 c) as (Hr & Hg & Hb).
  { apply shade_bounds; auto using imageData_byte. }
  subst c out.
  destruct (Studio.shade _ _ _ _ _ _) as [[r g] b] eqn:Ec.
  cbn [fst snd] in *.
  destruct (forEachPixel_pixel (Studio.pixelStep p allowHeavy rnd)
              (fun k => Studio.stored p allowHeavy (rnd k))
              (studio_pixelStep_shape p allowHeavy rnd) d j
              (ToUint8Clamp (Studio.clamp r)) (ToUint8Clamp (Studio.clamp g))
              (ToUint8Clamp (Studio.clamp b)) Hlen)
    as (E0 & E1 & E2).
  { unfold Studio.stored. now rewrite Ec. }
  unfold Studio.pixelPass. rewrite E0, E1, E2.
  rewrite !clamp_stores_byte, !ToInt32_truncate by assumption.
  unfold byte. repeat split; lia.
Qed.

End ClampedOutput.

Lemma grayBitmap_imageData : Spec.imageData (data grayBitmap).
Proof.
  split; [exists 200%nat; reflexivity |].
  apply Forall_concat, Forall_replicate. repeat constructor; lia.
Qed.

Lemma defaultProps_inRange : Spec.inRange defaultProps.
Proof. repeat split; vm_compute; discriminate. Qed.

Lemma pixel_pass_stores_clamped_truncations_witness :
  let d := data grayBitmap in
  let rnd := constantDraws (1 # 4) in
  let c := Studio.shade (H := plainHost) defaultProps true (rnd 0%nat)
             (d !!! 0%nat) (d !!! 1%nat) (d !!! 2%nat) in
  let out := Studio.pixelPass (H := plainHost) defaultProps true rnd d in
  let byte v := Z.max 0 (Z.min 255 (JS.truncate v)) in
  out !! 0%nat = Some (byte c.1.1)
  /\ out !! 1%nat = Some (byte c.1.2)
  /\ out !! 2%nat = Some (byte c.2)
  /\ 0 <= byte c.1.1 <= 255 /\ 0 <= byte c.1.2 <= 255 /\ 0 <= byte c.2 <= 255.
Proof.
  apply (pixel_pass_stores_clamped_truncations (H := plainHost)
           defaultProps true (constantDraws (1 # 4)) (data grayBitmap) 0%nat).
  - apply defaultProps_inRange.
  - split; vm_compute; discriminate.
  - intros k. split; vm_compute; [discriminate | reflexivity].
  - apply grayBitmap_imageData.
  - vm_compute. lia.
Defined.

(** * Posterize to two levels *)

Section TwoLevels.
Import JS.
Context `{Host}.

(** Quantising to [step = 255] gives a small multiple of 255. *)
Lemma quantise_255 (v step : Q) :
  (step == 255)%Q -> (- 15 <= v <= 4455)%Q ->
  exists m : Z,
    0 <= m <= 18
    /\ (inject_Z (Math_round (v / step)) * step == inject_Z (255 * m))%Q
    /\ ((v <= 255)%Q -> m <= 1).
Proof.
  intros Hstep Hv. exists (Math_round (v / step)).
  assert (v / step == v * (1 # 255))%Q as Hx.
  { rewrite Hstep. reflexivity. }
  destruct (Math_round_spec (v / step)) as [H1 H2].
  set (m := Math_round (v / step)) in *.
  rewrite Hx in H1, H2.
  assert (inject_Z (-1) < inject_Z m)%Q as Hlo.
  { change (inject_Z (-1)) with (-1)%Q. lra. }
  assert (inject_Z m < inject_Z 19)%Q as Hhi.
  { change (inject_Z 19) with 19%Q. lra. }
  rewrite <- Zlt_Qlt in Hlo, Hhi.
  split; [lia |]. split.
  - rewrite Hstep, inject_Z_mult. change (inject_Z 255) with 255%Q. ring.
  - intros Hle. assert (inject_Z m < inject_Z 2)%Q as Hm.
    { change (inject_Z 2) with 2%Q. lra. }
    rewrite <- Zlt_Qlt in Hm. lia.
Qed.

Lemma level_byte (q : Q) (m : Z) :
  0 <= m <= 18 -> (q == inject_Z (255 * m))%Q ->
  ToUint8Clamp (Studio.clamp q) = 0 \/ ToUint8Clamp (Studio.clamp q) = 255.
Proof.
  intros Hm Hq. rewrite clamp_stores_byte. unfold ToInt32.
  rewrite (truncate_comp _ _ Hq), truncate_inject_Z, wrap32_small by lia.
  lia.
Qed.

Lemma shade_two_levels p u d0 d1 d2 :
  Spec.inRange p -> Spec.gainInRange p ->
  (Studio.posterize p == 2)%Q -> (Studio.noise p == 0)%Q ->
  0 <= d0 <= 255 -> 0 <= d1 <= 255 -> 0 <= d2 <= 255 ->
  exists x y z,
    Studio.stored p true u d0 d1 d2 = (x, y, z)
    /\ (x = 0 \/ x = 255) /\ (y = 0 \/ y = 255) /\ (z = 0 \/ z = 255).
Proof.
  intros (Hbr & _ & _ & _ & _ & Hburn & _ & _) Hgain Hpost Hnoise H0 H1 H2.
  unfold Spec.gainInRange in Hgain.
  unfold Studio.stored, Studio.shade, Studio.extraGain.
  set (eg := Math_pow 2 (Studio.exposureEV p)) in *.
  assert (gt (Studio.posterize p) 1 = true) as ->.
  { apply gt_true. rewrite Hpost. reflexivity. }
  assert (gt (Studio.noise p) 0 = false) as ->.
  { apply gt_false. rewrite Hnoise. apply Qle_refl. }
  cbn [andb].
  assert (Spec.within 0 2040
            (inject_Z d0 * eg * Math_max 1 (Studio.brightness p / 200),
             inject_Z d1 * eg * Math_max 1 (Studio.brightness p / 200),
             inject_Z d2 * eg * Math_max 1 (Studio.brightness p / 200))%Q) as Hg.
  { unfold Spec.within; cbn [fst snd].
    split; [| split]; apply gain_bounds; auto; lra. }
  apply (burnStage_bounds (Studio.burnAmt p)) in Hg; [| apply unit_clamp'].
  destruct (Studio.burnStage _ _) as [[r g] b].
  destruct Hg as (Hr & Hg & Hb). cbn [fst snd] in Hr, Hg, Hb.
  unfold Studio.posterizeStage, Studio.noiseStage.
  assert (255 / (Studio.posterize p - 1) == 255)%Q as Hstep.
  { rewrite Hpost. reflexivity. }
  destruct (quantise_255 r _ Hstep Hr) as (mr & Hmr & Er & _).
  destruct (quantise_255 g _ Hstep Hg) as (mg & Hmg & Eg & _).
  destruct (quantise_255 b _ Hstep Hb) as (mb & Hmb & Eb & _).
  eexists _, _, _. split; [reflexivity |].
  split; [| split];
    [apply (level_byte _ mr) | apply (level_byte _ mg) | apply (level_byte _ mb)];
    assumption.
Qed.

Lemma studio_two_levels p rnd d j :
  Spec.inRange p -> Spec.gainInRange p -> Spec.imageData d ->
  (Studio.posterize p == 2)%Q -> (Studio.noise p == 0)%Q ->
  (4 * j < length d)%nat ->
  Spec.twoLevel (Studio.pixelPass p true rnd d) j.
Proof.
  intros Hp Hgain Hd Hpost Hnoise Hj.
  assert (4 * j + 2 < length d)%nat as Hlen.
  { destruct Hd as [[n Hn] _]. lia. }
  destruct (shade_two_levels p (rnd j) (d !!! (4 * j)%nat)
              (d !!! (4 * j + 1)%nat) (d !!! (4 * j + 2)%nat))
    as (x & y & z & E & Hx & Hy & Hz); auto using imageData_byte.
  destruct (forEachPixel_pixel (Studio.pixelStep p true rnd)
              (fun k => Studio.stored p true (rnd k))
              (studio_pixelStep_shape p true rnd) d j x y z Hlen E)
    as (E0 & E1 & E2).
  unfold Studio.pixelPass. intros c Hc.
  destruct c as [| [| [| c]]]; try lia.
  - rewrite Nat.add_0_r, E0. destruct Hx as [-> | ->]; auto.
  - rewrite E1. destruct Hy as [-> | ->]; auto.
  - rewrite E2. destruct Hz as [-> | ->]; auto.
Qed.

Lemma proteaser_posterizeStep_shape step k d :
  ProTeaser.posterizeStep step k d =
  let i := (4 * k)%nat in
  let '(x, y, z) :=
    ProTeaser.posterized step (d !!! i) (d !!! (i + 1)%nat) (d !!! (i + 2)%nat) in
  <[(i + 2)%nat := z]> (<[(i + 1)%nat := y]> (<[i := x]> d)).
Proof. reflexivity. Qed.

Lemma roundStep_level (b : Z) (step : Q) :
  (step == 255)%Q -> 0 <= b <= 255 ->
  ToUint8Clamp (ProTeaser.roundStep (inject_Z b) step) = 0
  \/ ToUint8Clamp (ProTeaser.roundStep (inject_Z b) step) = 255.
Proof.
  intros Hstep Hb. unfold ProTeaser.roundStep.
  assert (0 <= inject_Z b <= 255)%Q as Hb'.
  { change 0%Q with (inject_Z 0). change 255%Q with (inject_Z 255).
    rewrite <- !Zle_Qle. lia. }
  destruct (quantise_255 (inject_Z b) step Hstep) as (m & Hm & E & Hm');
    [lra |].
  rewrite (ToUint8Clamp_comp _ _ E), ToUint8Clamp_byte by (specialize (Hm' (proj2 Hb')); lia).
  specialize (Hm' (proj2 Hb')). lia.
Qed.

Lemma proteaser_two_levels st rnd d j :
  Spec.imageData d ->
  (ProTeaser.posterize st == 2)%Q -> (ProTeaser.noise st == 0)%Q ->
  (4 * j < length d)%nat ->
  Spec.twoLevel (ProTeaser.pixelPasses st rnd d) j.
Proof.
  intros Hd Hpost Hnoise Hj.
  assert (4 * j + 2 < length d)%nat as Hlen.
  { destruct Hd as [[n Hn] _]. lia. }
  unfold ProTeaser.pixelPasses.
  assert (gt (ProTeaser.posterize st) 1 = true) as ->.
  { apply gt_true. rewrite Hpost. reflexivity. }
  assert (gt (ProTeaser.noise st) 0 = false) as ->.
  { apply gt_false. rewrite Hnoise. apply Qle_refl. }
  set (step := (255 / (ProTeaser.posterize st - 1))%Q).
  assert (step == 255)%Q as Hstep.
  { unfold step. rewrite Hpost. reflexivity. }
  edestruct (forEachPixel_pixel (ProTeaser.posterizeStep step)
               (fun _ => ProTeaser.posterized step)
               (proteaser_posterizeStep_shape step) d j)
    as (E0 & E1 & E2); [exact Hlen | reflexivity |].
  intros c Hc.
  destruct c as [| [| [| c]]]; try lia.
  - rewrite Nat.add_0_r, E0.
    destruct (roundStep_level (d !!! (4 * j)%nat) step Hstep (imageData_byte _ _ Hd))
      as [-> | ->]; auto.
  - rewrite E1.
    destruct (roundStep_level (d !!! (4 * j + 1)%nat) step Hstep (imageData_byte _ _ Hd))
      as [-> | ->]; auto.
  - rewrite E2.
    destruct (roundStep_level (d !!! (4 * j + 2)%nat) step Hstep (imageData_byte _ _ Hd))
      as [-> | ->]; auto.
Qed.

(** C6, as the code has it.  With [posterize = 2], heavy passes allowed
    and [noise = 0], and the other adjustments in range, each colour byte
    the pixel pass stores for a pixel of an [ImageData] is 0 or 255; so is
    each colour byte after the posterize and noise steps of the earliest
    build. *)
Theorem posterize_two_levels_without_noise
    (p : Studio.Props) (st : ProTeaser.Settings) (rnd : nat -> Q)
    (d : list Z) (j : nat) :
  Spec.imageData d -> (4 * j < length d)%nat ->
  Spec.inRange p -> Spec.gainInRange p ->
  (Studio.posterize p == 2)%Q -> (Studio.noise p == 0)%Q ->
  (ProTeaser.posterize st == 2)%Q -> (ProTeaser.noise st == 0)%Q ->
  Spec.twoLevel (Studio.pixelPass p true rnd d) j
  /\ Spec.twoLevel (ProTeaser.pixelPasses st rnd d) j.
Proof.
  intros Hd Hj Hp Hgain Hpost Hnoise Hpost' Hnoise'. split.
  - now apply studio_two_levels.
  - now apply proteaser_two_levels.
Qed.

End TwoLevels.

Lemma whiteBitmap_imageData : Spec.imageData (data whiteBitmap).
Proof. split; [exists 2%nat; reflexivity |]. repeat constructor; lia. Qed.

Lemma posterize_two_levels_without_noise_witness :
  Spec.twoLevel
    (Studio.pixelPass (H := plainHost) quietPosterProps true
                      (constantDraws (1 # 4)) (data whiteBitmap)) 0
  /\ Spec.twoLevel
       (ProTeaser.pixelPasses quietPosterSettings (constantDraws (1 # 4))
                              (data whiteBitmap)) 0.
Proof.
  apply (posterize_two_levels_without_noise (H := plainHost)
           quietPosterProps quietPosterSettings (constantDraws (1 # 4))
           (data whiteBitmap) 0%nat).
  - apply whiteBitmap_imageData.
  - vm_compute. lia.
  - repeat split; vm_compute; discriminate.
  - split; vm_compute; discriminate.
  - reflexivity.
  - reflexivity.
  - reflexivity.
  - reflexivity.
Defined.

(** C6 as stated fails: with the noise at its default 0.08 (in range) and
    a draw of 1/4, a white pixel is quantised to 255 and then moved by
    (0.25 - 0.5) * 2 * 20.4 = -10.2, so that the stored byte is 244. *)
Lemma posterize_two_with_noise_stores_244 :
  Spec.inRange posterProps
  /\ Spec.gainInRange (H := plainHost) posterProps
  /\ Spec.unitDraws (constantDraws (1 # 4))
  /\ (Studio.posterize posterProps == 2)%Q
  /\ Studio.pixelPass (H := plainHost) posterProps true
                      (constantDraws (1 # 4)) (data whiteBitmap)
     = [244; 244; 244; 255; 244; 244; 244; 255].
Proof.
  split; [repeat split; vm_compute; discriminate |].
  split; [split; vm_compute; discriminate |].
  split; [intros k; split; vm_compute; [discriminate | reflexivity] |].
  split; [reflexivity |].
  vm_compute. reflexivity.
Qed.

(** * The burn branch *)

Section BurnFormula.
Import JS.
Local Open Scope Q_scope.

Lemma burnAmt_positive p : 0 < Studio.burn p -> 0 < Studio.burnAmt p.
Proof.
  intros Hb. unfold Studio.burnAmt.
  destruct (Math_min_cases 1 (Studio.burn p / 100)) as [[? ->] | [? ->]].
  - destruct (Math_max_cases 0 1) as [[? ->] | [? ->]]; lra.
  - destruct (Math_max_cases 0 (Studio.burn p / 100)) as [[? ->] | [? ->]];
      literal_div; lra.
Qed.

Lemma burnStage_formula p c :
  0 < Studio.burn p ->
  Spec.eq3 (Studio.burnStage (Studio.burnAmt p) c)
           (Spec.burnTransform (Studio.burn p) c).
Proof.
  intros Hb. destruct c as [[r g] b].
  unfold Studio.burnStage, Spec.burnTransform.
  rewrite (proj2 (gt_true _ _) (burnAmt_positive p Hb)).
  assert (Studio.burnAmt p == Spec.clampTo (Studio.burn p / 100) 0 1) as Hba.
  { symmetry. apply clampTo_unit. }
  unfold Studio.luminance.
  set (L := 0.2126 * r + 0.7152 * g + 0.0722 * b).
  assert (Studio.highlightMask L == Spec.clampTo ((L - 110) / 145) 0 1) as Ht.
  { symmetry. apply clampTo_unit. }
  unfold Spec.eq3; cbn [fst snd]. rewrite Hba, Ht.
  split; [| split]; ring.
Qed.

Lemma highlightMask_comp L L' :
  L == L' -> Studio.highlightMask L == Studio.highlightMask L'.
Proof.
  intros E. unfold Studio.highlightMask.
  apply Math_min_comp; [reflexivity |].
  apply Math_max_comp; [reflexivity |]. now rewrite E.
Qed.

Lemma burnStage_comp ba c c' :
  Spec.eq3 c c' -> Spec.eq3 (Studio.burnStage ba c) (Studio.burnStage ba c').
Proof.
  destruct c as [[r g] b], c' as [[r' g'] b'].
  intros (Er & Eg & Eb). cbn [fst snd] in Er, Eg, Eb.
  unfold Studio.burnStage.
  destruct (gt ba 0); [| unfold Spec.eq3; cbn [fst snd]; auto].
  assert (Studio.highlightMask (Studio.luminance (r, g, b))
          == Studio.highlightMask (Studio.luminance (r', g', b'))) as Ht.
  { apply highlightMask_comp. unfold Studio.luminance. now rewrite Er, Eg, Eb. }
  unfold Spec.eq3; cbn [fst snd]. rewrite Ht, Er, Eg, Eb.
  split; [| split]; reflexivity.
Qed.

Lemma eq3_trans c1 c2 c3 : Spec.eq3 c1 c2 -> Spec.eq3 c2 c3 -> Spec.eq3 c1 c3.
Proof.
  intros (A1 & A2 & A3) (B1 & B2 & B3).
  split; [| split]; etransitivity; eassumption.
Qed.

Lemma white_pixel_full_burn `{Host} allowHeavy u :
  Math_pow 2 0 == 1 ->
  Studio.highlightMask (Studio.luminance (255, 255, 255)) == 1
  /\ Spec.eq3 (Studio.shade burnProps allowHeavy u 255 255 255)
              (617.1, 480.0375, 343.3575)
  /\ Studio.stored burnProps allowHeavy u 255 255 255 = (255, 255, 255)%Z.
Proof.
  intros Heg. split; [vm_compute; reflexivity |].
  assert (Spec.eq3 (Studio.shade burnProps allowHeavy u 255 255 255)
                   (617.1, 480.0375, 343.3575)) as Hs.
  { unfold Studio.shade.
    change (gt (Studio.posterize burnProps) 1) with false.
    change (gt (Studio.noise burnProps) 0) with false.
    change (Studio.exposureEV burnProps) with 0.
    change (Studio.extraGain burnProps) with 1.
    cbn [andb]. set (eg := Math_pow 2 0) in *.
    assert (Spec.eq3 (inject_Z 255 * eg * 1, inject_Z 255 * eg * 1,
                      inject_Z 255 * eg * 1) (255, 255, 255)) as Hin.
    { unfold Spec.eq3; cbn [fst snd]. rewrite Heg.
      split; [| split]; reflexivity. }
    apply (burnStage_comp (Studio.burnAmt burnProps)) in Hin.
    destruct (Studio.burnStage _ (inject_Z 255 * eg * 1, _, _)) as [[r g] b].
    unfold Studio.posterizeStage, Studio.noiseStage.
    eapply eq3_trans; [exact Hin |].
    vm_compute. split; [| split]; reflexivity. }
  split; [exact Hs |].
  unfold Studio.stored.
  destruct (Studio.shade burnProps allowHeavy u 255 255 255) as [[r g] b].
  destruct Hs as (Er & Eg & Eb). cbn [fst snd] in Er, Eg, Eb.
  rewrite !clamp_stores_byte.
  rewrite (ToInt32_comp _ _ Er), (ToInt32_comp _ _ Eg), (ToInt32_comp _ _ Eb).
  reflexivity.
Qed.

(** C5, as the code has it.  With [burn > 0] the burn branch computes the
    three formulas of the specification (with [burnAmount = clamp(burn/100,
    0, 1)], [L] the luminance of the channels after gain and [t =
    clamp((L - 110)/145, 0, 1)]).  For a white pixel with [burn = 100] and
    neutral gains, [t = 1] and all three channels are pushed upward, to
    617.1, 480.0375 and 343.3575 (blue: 255 * 1.4025 less the cut of
    14.28), and each is stored as 255. *)
Theorem burn_branch_formula `{Host}
    (p : Studio.Props) (c : Q * Q * Q) (allowHeavy : bool) (u : Q) :
  0 < Studio.burn p -> Math_pow 2 0 == 1 ->
  Spec.eq3 (Studio.burnStage (Studio.burnAmt p) c)
           (Spec.burnTransform (Studio.burn p) c)
  /\ Studio.highlightMask (Studio.luminance (255, 255, 255)) == 1
  /\ Spec.eq3 (Studio.shade burnProps allowHeavy u 255 255 255)
              (617.1, 480.0375, 343.3575)
  /\ Studio.stored burnProps allowHeavy u 255 255 255 = (255, 255, 255)%Z.
Proof.
  intros Hb Heg. split; [now apply burnStage_formula |].
  now apply white_pixel_full_burn.
Qed.

End BurnFormula.

Lemma burn_branch_formula_witness :
  Spec.eq3 (Studio.burnStage (Studio.burnAmt defaultProps) (200, 180, 160)%Q)
           (Spec.burnTransform (Studio.burn defaultProps) (200, 180, 160)%Q)
  /\ (Studio.highlightMask (Studio.luminance (255, 255, 255)) == 1)%Q
  /\ Spec.eq3 (Studio.shade (H := plainHost) burnProps true 0 255 255 255)
              (617.1, 480.0375, 343.3575)%Q
  /\ Studio.stored (H := plainHost) burnProps true 0 255 255 255
     = (255, 255, 255).
Proof.
  apply (burn_branch_formula (H := plainHost) defaultProps
           (200, 180, 160)%Q true 0%Q).
  - reflexivity.
  - reflexivity.
Defined.

(** C5 as stated fails in its last clause: for the white pixel with
    [burn = 100] and neutral gains the blue channel before clamping is
    343.3575, above the 255 it had, and the stored pixel is white again. *)
Lemma white_pixel_blue_not_reduced :
  let c := Studio.shade (H := plainHost) burnProps true 0 255 255 255 in
  (c.2 == 343.3575)%Q
  /\ ~ (c.2 < 255)%Q
  /\ Studio.pixelPass (H := plainHost) burnProps true (constantDraws 0)
                      (data whiteBitmap)
     = data whiteBitmap.
Proof.
  split; [vm_compute; reflexivity |].
  split; [vm_compute; discriminate |].
  vm_compute. reflexivity.
Qed.

(** * The brightness cap *)

Section BrightnessCap.
Import JS.
Local Open Scope Q_scope.




End BrightnessCap.

(** * Preview resolution *)

Section PreviewResolution.
Import JS Studio.
Context `{Host}.

Lemma overlayCalls_size p CW CH :
  Forall (fun o => Spec.overlaySize o = (CW, CH)) (overlayCalls p CW CH).
Proof.
  unfold overlayCalls. apply Forall_app. split.
  - destruct (preset p); repeat constructor.
  - destruct (gt (burn p) 0); repeat constructor.
Qed.

Lemma overlayCalls_burn p CW CH :
  (0 < burn p)%Q ->
  exists pre,
    overlayCalls p CW CH
    = pre ++ [Vignette CW CH (0.28 * (burn p / 100));
              WarmEdgeBurn CW CH (0.5 * (burn p / 100))].
Proof.
  intros Hb. unfold overlayCalls.
  rewrite (proj2 (gt_true _ _) Hb). eauto.
Qed.

(** What a render that gets past its early returns allocates and
    paints. *)
Lemma renderFrame_allocates p isScrubbing rnd c bmp runHeavyPasses :
  imageBitmap p = Some bmp ->
  let CW := (canvasSize p bmp).1 in
  let CH := (canvasSize p bmp).2 in
  exists fr,
    renderFrame p isScrubbing rnd (Some c) runHeavyPasses = Some fr
    /\ (width (work fr), height (work fr)) = workSize isScrubbing CW CH
    /\ overlays fr = overlayCalls p CW CH.
Proof.
  intros Hbmp CW CH. unfold renderFrame. rewrite Hbmp.
  unfold CW, CH. destruct (canvasSize p bmp) as [cw ch]. cbn [fst snd].
  destruct (workSize isScrubbing cw ch) as [W Hh].
  eexists. split; [reflexivity |]. cbn [work overlays width height]. auto.
Qed.

(** C7, as the code has it.  [CW] x [CH] is the size the render gives the
    visible canvas, [outW || imageBitmap.width] by
    [outH || imageBitmap.height] of the closure that runs.  A render that
    executes while [isScrubbingRef] is true allocates a working canvas of
    [max(1, floor(CW * 0.35))] by [max(1, floor(CH * 0.35))], the products
    being rounded to binary64 before the floor.  In each direction that is
    never more than [max(1, floor(0.35 * output))], at most one less, and
    equal to it unless the output dimension is a multiple of 20; it is
    never more than 0.35 of the output dimension, or 1.  Every overlay
    helper is still called with the full [CW] x [CH], and when [burn > 0]
    the calls end with the vignette at [0.28 * burn / 100] and the warm
    edge burn at [0.5 * burn / 100].  The dimensions of a canvas are below
    [2 ^ 32]. *)
Theorem scrubbing_render_uses_preview_canvas
    (p : Props) (rnd : nat -> Q) (c bmp : Raster) (runHeavyPasses : bool) :
  imageBitmap p = Some bmp ->
  let CW := (canvasSize p bmp).1 in
  let CH := (canvasSize p bmp).2 in
  1 <= CW < 2 ^ 32 -> 1 <= CH < 2 ^ 32 ->
  exists fr,
    renderFrame p true rnd (Some c) runHeavyPasses = Some fr
    /\ width (work fr)
       = Z.max 1 (Math_floor (times (inject_Z CW) (round64 0.35)))
    /\ height (work fr)
       = Z.max 1 (Math_floor (times (inject_Z CH) (round64 0.35)))
    /\ Spec.previewSize CW - 1 <= width (work fr) <= Spec.previewSize CW
    /\ Spec.previewSize CH - 1 <= height (work fr) <= Spec.previewSize CH
    /\ (CW mod 20 <> 0 -> width (work fr) = Spec.previewSize CW)
    /\ (CH mod 20 <> 0 -> height (work fr) = Spec.previewSize CH)
    /\ (inject_Z (width (work fr)) <= Qmax 1 (0.35 * inject_Z CW))%Q
    /\ (inject_Z (height (work fr)) <= Qmax 1 (0.35 * inject_Z CH))%Q
    /\ Forall (fun o => Spec.overlaySize o = (CW, CH)) (overlays fr)
    /\ ((burn p <= 0)%Q
        \/ exists pre,
             overlays fr
             = pre ++ [Vignette CW CH (0.28 * (burn p / 100));
                       WarmEdgeBurn CW CH (0.5 * (burn p / 100))]).
Proof.
  intros Hbmp CW CH HW HH.
  destruct (renderFrame_allocates p true rnd c bmp runHeavyPasses Hbmp)
    as (fr & Hfr & Hwork & Hov).
  fold CW CH in Hwork, Hov.
  exists fr. split; [exact Hfr |].
  apply pair_equal_spec in Hwork as [-> ->]. rewrite Hov.
  destruct (preview_dimension CW HW) as (BW & EW & LW).
  destruct (preview_dimension CH HH) as (BH & EH & LH).
  cbv zeta in BW, EW, LW, BH, EH, LH.
  change (previewScale true) with (round64 0.35) in *.
  split; [reflexivity |]. split; [reflexivity |].
  split; [exact BW |]. split; [exact BH |].
  split; [exact EW |]. split; [exact EH |].
  split; [exact LW |]. split; [exact LH |].
  split; [apply overlayCalls_size |].
  destruct (Qlt_le_dec 0 (burn p)) as [Hb | Hb]; [right | left; exact Hb].
  now apply overlayCalls_burn.
Qed.

End PreviewResolution.

Lemma scrubbing_render_uses_preview_canvas_witness :
  exists fr,
    Studio.renderFrame (H := plainHost) defaultProps true (constantDraws (1 # 4))
                       (Some grayBitmap) false = Some fr
    /\ width (Studio.work fr) = 7
    /\ height (Studio.work fr) = 3
    /\ Spec.previewSize 20 - 1 <= width (Studio.work fr) <= Spec.previewSize 20
    /\ Spec.previewSize 10 - 1 <= height (Studio.work fr) <= Spec.previewSize 10
    /\ (20 mod 20 <> 0 -> width (Studio.work fr) = Spec.previewSize 20)
    /\ (10 mod 20 <> 0 -> height (Studio.work fr) = Spec.previewSize 10)
    /\ (inject_Z (width (Studio.work fr)) <= Qmax 1 (0.35 * inject_Z 20))%Q
    /\ (inject_Z (height (Studio.work fr)) <= Qmax 1 (0.35 * inject_Z 10))%Q
    /\ Forall (fun o => Spec.overlaySize o = (20, 10)) (Studio.overlays fr)
    /\ ((Studio.burn defaultProps <= 0)%Q
        \/ exists pre,
             Studio.overlays fr
             = pre ++ [Vignette 20 10 (0.28 * (Studio.burn defaultProps / 100));
                       WarmEdgeBurn 20 10 (0.5 * (Studio.burn defaultProps / 100))]).
Proof.
  apply (scrubbing_render_uses_preview_canvas (H := plainHost) defaultProps
           (constantDraws (1 # 4)) grayBitmap grayBitmap false).
  - reflexivity.
  - cbn. lia.
  - cbn. lia.
Defined.

(** C7 as stated fails for a 180 x 340 output: 180 * 0.35 and 340 * 0.35
    are 62.99999999999999 and 118.99999999999999 in binary64, so that the
    render allocates 62 x 118 where [max(1, floor(0.35 * output))] is
    63 x 119. *)
Lemma preview_canvas_is_62_by_118_for_180_by_340 :
  Studio.imageBitmap tallProps = Some tallBitmap
  /\ (Studio.outW tallProps, Studio.outH tallProps) = outputSize 180 340
  /\ Studio.canvasSize tallProps tallBitmap = (180, 340)
  /\ (exists fr,
        Studio.renderFrame (H := plainHost) tallProps true (constantDraws (1 # 4))
                           (Some tallBitmap) false = Some fr
        /\ (width (Studio.work fr), height (Studio.work fr)) = (62, 118))
  /\ (Spec.previewSize 180, Spec.previewSize 340) = (63, 119)
  /\ (JS.times 180 (JS.round64 0.35) == 8866461766385663 # 140737488355328)%Q
  /\ (JS.times 340 (JS.round64 0.35) == 8373880557142015 # 70368744177664)%Q.
Proof.
  split; [reflexivity |]. split; [vm_compute; reflexivity |].
  split; [reflexivity |]. split.
  - destruct (renderFrame_allocates (H := plainHost) tallProps true
                (constantDraws (1 # 4)) tallBitmap tallBitmap false eq_refl)
      as (fr & Hfr & Hwork & _).
    exists fr. split; [exact Hfr |]. rewrite Hwork. vm_compute. reflexivity.
  - split; [vm_compute; reflexivity |]. split; vm_compute; reflexivity.
Qed.

(** The output size above is the canvas size of the closure that runs,
    which need not be the capped size.  A control is held down while a
    first image, 2000 x 1, arrives: the sizing effect of the render in
    which it arrives queues a render that closes over [outW = outH = 0];
    the request of the next render, which has the capped 1600 x 1, is
    merged into it; and the frame gets a 2000 x 1 visible canvas and a
    700 x 1 working canvas, above 0.35 of 1600. *)
Lemma stale_closure_sizes_the_canvas :
  let events := [Studio.StartScrub blankProps; Studio.AnimationFrame;
                 Studio.QueueRender unsizedProps true;
                 Studio.QueueRender sizedProps true;
                 Studio.AnimationFrame] in
  (Studio.outW sizedProps, Studio.outH sizedProps) = outputSize 2000 1
  /\ Studio.calls (Studio.run events Studio.initial)
     = [Studio.mkCall blankProps false true;
        Studio.mkCall unsizedProps false true]
  /\ Studio.canvasSize unsizedProps wideBitmap = (2000, 1)
  /\ Studio.workSize true 2000 1 = (700, 1)
  /\ Spec.previewSize 1600 = 560.
Proof.
  split; [vm_compute; reflexivity |]. split; [reflexivity |].
  split; [reflexivity |]. split; vm_compute; reflexivity.
Qed.

(** * Determinism *)

Section Determinism.
Import JS Studio.
Context `{Host}.

Lemma forPixels_ext (body body' : nat -> list Z -> list Z) :
  (forall k d, body k d = body' k d) ->
  forall n k d, forPixels body n k d = forPixels body' n k d.
Proof.
  intros Hext. induction n as [| n IH]; intros k d; cbn [forPixels];
    [reflexivity |].
  now rewrite Hext, IH.
Qed.

(** Without noise the loop body never looks at the draw. *)
Lemma shade_ignores_draw p allowHeavy u u' d0 d1 d2 :
  (noise p == 0)%Q ->
  shade p allowHeavy u d0 d1 d2 = shade p allowHeavy u' d0 d1 d2.
Proof.
  intros Hn. unfold shade.
  assert (gt (noise p) 0 = false) as ->.
  { apply gt_false. rewrite Hn. apply Qle_refl. }
  cbn [andb]. unfold noiseStage.
  now destruct (posterizeStage _ _ _) as [[r g] b].
Qed.

Lemma pixelPass_ignores_draws p allowHeavy rnd rnd' d :
  (noise p == 0)%Q ->
  pixelPass p allowHeavy rnd d = pixelPass p allowHeavy rnd' d.
Proof.
  intros Hn. unfold pixelPass, forEachPixel. apply forPixels_ext.
  intros k d'. unfold pixelStep.
  now rewrite (shade_ignores_draw p allowHeavy (rnd k) (rnd' k)).
Qed.

(** C8.  With [noise = 0] and [isScrubbingRef] false, two executions of
    [renderFrame] over the same props give the same frame (visible canvas,
    working canvas, overlay calls), whatever [Math.random] would return,
    whatever the visible canvas held before and whatever the argument
    [runHeavyPasses] is. *)
Theorem settled_render_is_deterministic
    (p : Props) (rnd rnd' : nat -> Q) (c c' : Raster) (full full' : bool) :
  (noise p == 0)%Q ->
  renderFrame p false rnd (Some c) full = renderFrame p false rnd' (Some c') full'.
Proof.
  intros Hn. unfold renderFrame.
  destruct (imageBitmap p) as [bmp |]; [| reflexivity].
  destruct (canvasSize p bmp) as [CW CH].
  destruct (workSize false CW CH) as [W Hh].
  cbn [negb]. rewrite !orb_true_r. cbn [orb andb].
  now rewrite (pixelPass_ignores_draws p true rnd rnd').
Qed.

End Determinism.

Lemma settled_render_is_deterministic_witness :
  Studio.renderFrame (H := plainHost) burnProps false (constantDraws 0)
                     (Some whiteBitmap) true
  = Studio.renderFrame (H := plainHost) burnProps false (constantDraws (1 # 2))
                       (Some grayBitmap) false.
Proof.
  apply (settled_render_is_deterministic (H := plainHost) burnProps
           (constantDraws 0) (constantDraws (1 # 2)) whiteBitmap grayBitmap
           true false).
  reflexivity.
Defined.

(** * More on the render queue *)

Section QueueInvariants.
Import Studio.

(** A refresh with nothing registered changes nothing. *)
Lemma idle_frame_changes_nothing s :
  idle s ->
  idle (animationFrame s)
  /\ calls (animationFrame s) = calls s
  /\ wantFullRef (animationFrame s) = wantFullRef s
  /\ isScrubbingRef (animationFrame s) = isScrubbingRef s
  /\ nextHandle (animationFrame s) = nextHandle s.
Proof.
  intros [Hr Hc]. unfold animationFrame, idle. rewrite Hc. cbn. auto.
Qed.

Lemma step_keeps_queue_shape s e :
  (idle s /\ wantFullRef s = false)
  \/ (exists h p, armed h p s /\ (h < nextHandle s)%nat) ->
  (idle (step s e) /\ wantFullRef (step s e) = false)
  \/ (exists h p, armed h p (step s e) /\ (h < nextHandle (step s e))%nat).
Proof.
  intros Hs. destruct (isRequest e) eqn:He.
  - right. destruct Hs as [[Hi _] | (h & p & Ha & Hh)].
    + destruct (isRequest_eventProps e He) as [p Hp].
      destruct (request_when_idle s e p Hi Hp) as [Ha _].
      exists (nextHandle s), p. split; [exact Ha |].
      destruct Hi as [Hr _].
      destruct e as [q [] | q | q |]; try discriminate He; cbn;
        unfold startScrub, endScrub, queueRender; cbn; rewrite Hr; cbn; lia.
    + destruct (request_when_armed h p s e Ha He) as (Ha' & _ & _ & Hn).
      exists h, p. split; [exact Ha' | lia].
  - destruct e; try discriminate He. left. cbn [step].
    destruct Hs as [[Hi Hw] | (h & p & Ha & _)].
    + destruct (idle_frame_changes_nothing s Hi) as (Hi' & _ & Hw' & _).
      split; [exact Hi' | congruence].
    + destruct (frame_when_armed h p s Ha) as (Hi' & Hw' & _). auto.
Qed.

(** X1.  Whatever the events since the component mounted, the queue is
    either idle with [wantFullRef] false, or holds exactly one callback,
    the one [rafRef] names, under a handle the browser has already given
    out: a full-resolution request is never left pending without a frame
    scheduled for it. *)
Theorem queue_shape_invariant (es : list Event) :
  let s := run es initial in
  (idle s /\ wantFullRef s = false)
  \/ (exists h p, armed h p s /\ (h < nextHandle s)%nat).
Proof.
  cbv zeta. unfold run.
  assert (G : forall es s,
             (idle s /\ wantFullRef s = false)
             \/ (exists h p, armed h p s /\ (h < nextHandle s)%nat) ->
             (idle (fold_left step es s) /\ wantFullRef (fold_left step es s) = false)
             \/ (exists h p, armed h p (fold_left step es s)
                             /\ (h < nextHandle (fold_left step es s))%nat)).
  { clear es. induction es as [| e es IH]; intros s Hs; [exact Hs |].
    cbn [fold_left]. apply IH, step_keeps_queue_shape, Hs. }
  apply G. left. repeat split.
Qed.

(** One event adds at most one render, and only a refresh does. *)
Lemma step_render_budget s e :
  idle s \/ (exists h p, armed h p s) ->
  (length (calls (step s e)) + length (frameCallbacks (step s e))
   <= length (calls s) + length (frameCallbacks s)
      + (if isRequest e then 1 else 0))%nat
  /\ (length (calls (step s e))
      <= length (calls s) + (if isRequest e then 0 else 1))%nat.
Proof.
  intros Hs. destruct (isRequest e) eqn:He.
  - destruct Hs as [Hi | (h & p & Ha)].
    + destruct (isRequest_eventProps e He) as [p Hp].
      destruct (request_when_idle s e p Hi Hp) as ([_ Hc] & _ & Hcalls).
      rewrite Hc, Hcalls. destruct Hi as [_ ->]. cbn. lia.
    + destruct (request_when_armed h p s e Ha He) as ([_ Hc] & _ & Hcalls & _).
      rewrite Hc, Hcalls. destruct Ha as [_ ->]. cbn. lia.
  - destruct e; try discriminate He. cbn [step].
    destruct Hs as [Hi | (h & p & Ha)].
    + destruct (idle_frame_changes_nothing s Hi) as ([_ Hc] & Hcalls & _).
      rewrite Hc, Hcalls. cbn. lia.
    + destruct (frame_when_armed h p s Ha) as ([_ Hc] & _ & _ & Hcalls).
      rewrite Hc, Hcalls, length_app. destruct Ha as [_ ->]. cbn. lia.
Qed.

Lemma step_keeps_idle_or_armed s e :
  idle s \/ (exists h p, armed h p s) ->
  idle (step s e) \/ (exists h p, armed h p (step s e)).
Proof.
  intros Hs. destruct (isRequest e) eqn:He.
  - right. destruct Hs as [Hi | (h & p & Ha)].
    + destruct (isRequest_eventProps e He) as [p Hp].
      destruct (request_when_idle s e p Hi Hp) as [Ha _]. eauto.
    + destruct (request_when_armed h p s e Ha He) as [Ha' _]. eauto.
  - destruct e; try discriminate He. left. cbn [step].
    destruct Hs as [Hi | (h & p & Ha)].
    + apply (idle_frame_changes_nothing s Hi).
    + apply (frame_when_armed h p s Ha).
Qed.

(** X2.  Whatever the events, the number of [renderFrame] executions is
    at most the number of display refreshes and at most the number of
    [queueRender] calls made. *)
Theorem renders_bounded_by_frames_and_requests (es : list Event) :
  let frames := length (filter (fun e => isRequest e = false) es) in
  let requests := length (filter (fun e => isRequest e = true) es) in
  (length (calls (run es initial)) <= frames)%nat
  /\ (length (calls (run es initial)) <= requests)%nat.
Proof.
  cbv zeta. unfold run.
  assert (G : forall es s,
             idle s \/ (exists h p, armed h p s) ->
             (length (calls (fold_left step es s))
              <= length (calls s)
                 + length (filter (fun e => isRequest e = false) es))%nat
             /\ (length (calls (fold_left step es s))
                 + length (frameCallbacks (fold_left step es s))
                 <= length (calls s) + length (frameCallbacks s)
                    + length (filter (fun e => isRequest e = true) es))%nat).
  { clear es. induction es as [| e es IH]; intros s Hs; [cbn; lia |].
    cbn [fold_left].
    destruct (IH (step s e) (step_keeps_idle_or_armed s e Hs)) as [I1 I2].
    destruct (step_render_budget s e Hs) as [B1 B2].
    rewrite !filter_cons.
    destruct (isRequest e); repeat case_decide; try congruence; cbn [length]; lia. }
  destruct (G es initial) as [G1 G2]; [left; split; reflexivity |].
  cbn in G1, G2. lia.
Qed.

Lemma frame_callbacks_keep_heavy_gate cbs : forall s,
  Forall (fun c => runHeavyPasses c && scrubbing c = false) (calls s) ->
  Forall (fun c => runHeavyPasses c && scrubbing c = false)
         (calls (fold_left (fun s' (cb : nat * Props) => frameCallback (snd cb) s') cbs s)).
Proof.
  induction cbs as [| cb cbs IH]; intros s Hs; [exact Hs |].
  cbn [fold_left]. apply IH. cbn. apply Forall_app. split; [exact Hs |].
  constructor; [| constructor]. cbn.
  now destruct (wantFullRef s), (isScrubbingRef s).
Qed.

(** The renders logged so far keep the gate, whatever the events. *)
Lemma run_keeps_heavy_gate (es : list Event) : forall s,
  Forall (fun c => runHeavyPasses c && scrubbing c = false) (calls s) ->
  Forall (fun c => runHeavyPasses c && scrubbing c = false) (calls (run es s)).
Proof.
  unfold run. induction es as [| e es IH]; intros s Hs; [exact Hs |].
  cbn [fold_left]. apply IH.
  destruct e as [p b | p | p |]; cbn [step].
  - unfold queueRender. destruct (rafRef s); exact Hs.
  - unfold startScrub, queueRender. cbn. destruct (rafRef s); exact Hs.
  - unfold endScrub, queueRender. cbn. destruct (rafRef s); exact Hs.
  - unfold animationFrame. apply frame_callbacks_keep_heavy_gate. exact Hs.
Qed.

(** X3.  No execution of [renderFrame] started by the queue gets
    [runHeavyPasses = true] while [isScrubbingRef] is true. *)
Theorem heavy_passes_never_requested_while_scrubbing (es : list Event) :
  Forall (fun c => runHeavyPasses c && scrubbing c = false)
         (calls (run es initial)).
Proof.
  apply run_keeps_heavy_gate. unfold initial. cbn [calls]. constructor.
Qed.

End QueueInvariants.

Section Release.
Import Studio.

Lemma request_keeps_released s e :
  isRequest e = true -> isStartScrub e = false ->
  isScrubbingRef s = false -> isScrubbingRef (step s e) = false.
Proof.
  intros He Hs Hf.
  destruct e as [q b | q | q |]; try discriminate; cbn;
    unfold endScrub, queueRender; cbn; destruct (rafRef s); cbn; auto.
Qed.

Lemma requests_keep_released es : forall s,
  forallb isRequest es = true ->
  forallb (fun e => negb (isStartScrub e)) es = true ->
  isScrubbingRef s = false -> isScrubbingRef (run es s) = false.
Proof.
  induction es as [| e es IH]; intros s Hreq Hns Hf; [exact Hf |].
  cbn in Hreq, Hns. apply andb_prop in Hreq as [He Hreq].
  apply andb_prop in Hns as [Hn Hns]. apply negb_true_iff in Hn.
  cbn [run fold_left]. apply (IH (step s e)); auto.
  now apply request_keeps_released.
Qed.

(** X4.  After [endScrub], from an idle queue or with a frame already
    pending, and whatever requests other than [startScrub] follow before
    the refresh, the refresh executes one render with
    [runHeavyPasses = true] and [isScrubbingRef] false, on a working canvas
    of the output size. *)
Theorem release_is_followed_by_a_full_render
    (s : Sched) (p : Props) (es : list Event) :
  idle s \/ (exists h q, armed h q s) ->
  forallb isRequest es = true ->
  forallb (fun e => negb (isStartScrub e)) es = true ->
  exists c,
    calls (animationFrame (run (EndScrub p :: es) s)) = calls s ++ [c]
    /\ runHeavyPasses c = true
    /\ scrubbing c = false
    /\ (forall CW CH, 1 <= CW -> 1 <= CH ->
          workSize (scrubbing c) CW CH = (CW, CH)).
Proof.
  intros Hs Hreq Hns.
  assert (exists h q, armed h q (step s (EndScrub p))
                      /\ wantFullRef (step s (EndScrub p)) = true
                      /\ calls (step s (EndScrub p)) = calls s) as (h & q & Ha & Hw & Hc).
  { destruct Hs as [Hi | (h & q & Ha)].
    - destruct (request_when_idle s (EndScrub p) p Hi eq_refl) as (Ha & Hw & Hc).
      exists (nextHandle s), p. rewrite Hw, orb_true_r. auto.
    - destruct (request_when_armed h q s (EndScrub p) Ha eq_refl)
        as (Ha' & Hw & Hc & _).
      exists h, q. rewrite Hw, orb_true_r. auto. }
  assert (isScrubbingRef (step s (EndScrub p)) = false) as Hf.
  { cbn. unfold endScrub, queueRender. cbn. now destruct (rafRef s). }
  destruct (burst_when_armed es h q _ Ha Hreq) as (Ha' & Hw' & Hc').
  pose proof (requests_keep_released es _ Hreq Hns Hf) as Hf'.
  destruct (frame_when_armed h q _ Ha') as (_ & _ & _ & Hcalls).
  change (run (EndScrub p :: es) s) with (run es (step s (EndScrub p))).
  eexists. split; [rewrite Hcalls, Hc', Hc; reflexivity |].
  cbn [runHeavyPasses scrubbing]. rewrite Hw', Hw, Hf'. cbn.
  repeat split. intros CW CH. apply workSize_released.
Qed.

Lemma release_is_followed_by_a_full_render_witness :
  exists c,
    calls (animationFrame
             (run [EndScrub defaultProps; QueueRender defaultProps false]
                  (run [StartScrub defaultProps] initial)))
    = calls (run [StartScrub defaultProps] initial) ++ [c]
    /\ runHeavyPasses c = true
    /\ scrubbing c = false
    /\ (forall CW CH, 1 <= CW -> 1 <= CH ->
          workSize (scrubbing c) CW CH = (CW, CH)).
Proof.
  apply (release_is_followed_by_a_full_render
           (run [StartScrub defaultProps] initial) defaultProps
           [QueueRender defaultProps false]).
  - right. exists 1%nat, defaultProps. split; reflexivity.
  - reflexivity.
  - reflexivity.
Defined.

Lemma armed_step_ignores_props h p s q e :
  armed h p s -> step s (raisedFrom q e) = step s e.
Proof.
  intros [Hr Hc]. destruct e as [r b | r | r |]; cbn; [| | | reflexivity];
    unfold startScrub, endScrub, queueRender; cbn; rewrite Hr; reflexivity.
Qed.

(** X5.  While a frame is pending, the props of the renders that raise
    further requests are ignored: the queue ends in the same state, and the
    refresh executes the closure registered first, with its props. *)
Theorem pending_frame_ignores_later_props
    (s : Sched) (h : nat) (p q : Props) (es : list Event) :
  armed h p s -> forallb isRequest es = true ->
  run (map (raisedFrom q) es) s = run es s
  /\ exists c,
       calls (animationFrame (run (map (raisedFrom q) es) s)) = calls s ++ [c]
       /\ callProps c = p.
Proof.
  intros Ha Hreq.
  assert (E : run (map (raisedFrom q) es) s = run es s).
  { revert s Ha Hreq. induction es as [| e es IH]; intros s Ha Hreq;
      [reflexivity |].
    cbn in Hreq. apply andb_prop in Hreq as [He Hreq].
    cbn [map run fold_left]. rewrite (armed_step_ignores_props h p s q e Ha).
    apply IH; [| exact Hreq].
    apply (request_when_armed h p s e Ha He). }
  split; [exact E |]. rewrite E.
  destruct (burst_when_armed es h p s Ha Hreq) as (Ha' & _ & Hc).
  destruct (frame_when_armed h p _ Ha') as (_ & _ & _ & Hcalls).
  eexists. split; [rewrite Hcalls, Hc; reflexivity | reflexivity].
Qed.

Lemma pending_frame_ignores_later_props_witness :
  let s := run [QueueRender defaultProps false] initial in
  let es := [QueueRender defaultProps true; EndScrub defaultProps] in
  run (map (raisedFrom burnProps) es) s = run es s
  /\ exists c,
       calls (animationFrame (run (map (raisedFrom burnProps) es) s))
       = calls s ++ [c]
       /\ callProps c = defaultProps.
Proof.
  apply (pending_frame_ignores_later_props
           (run [QueueRender defaultProps false] initial) 1%nat
           defaultProps burnProps
           [QueueRender defaultProps true; EndScrub defaultProps]).
  - split; reflexivity.
  - reflexivity.
Defined.

End Release.

Section FlagAndFrame.
Import Studio.
Context `{Host}.

Lemma renderFrame_released_any_flag p rnd cv b b' :
  renderFrame p false rnd cv b = renderFrame p false rnd cv b'.
Proof. unfold renderFrame. cbn [negb]. now rewrite !orb_true_r. Qed.

(** X6.  For every render the queue executes, the frame is the one
    [renderFrame] computes with [runHeavyPasses = false]: as the flag is
    false whenever [isScrubbingRef] is true and is not looked at otherwise,
    what was requested with [requestFull] never changes the picture. *)
Theorem requested_flag_never_changes_the_frame
    (es : list Event) (rnd : nat -> Q) (cv : option Raster) :
  Forall (fun c =>
            renderFrame (callProps c) (scrubbing c) rnd cv (runHeavyPasses c)
            = renderFrame (callProps c) (scrubbing c) rnd cv false)
         (calls (run es initial)).
Proof.
  eapply Forall_impl; [apply run_keeps_heavy_gate; constructor |].
  intros c Hc. cbn in Hc. destruct (scrubbing c).
  - rewrite andb_true_r in Hc. now rewrite Hc.
  - apply renderFrame_released_any_flag.
Qed.

End FlagAndFrame.

Section PresetQueue.
Import Studio.

(** X19.  A preset click on an idle queue registers the closure of the
    render the handler belongs to, with the props from before the preset,
    and asks for a full render; when the request of the re-render reaches
    the queue before the refresh it is merged, so that the refresh renders
    the previous props and leaves the queue idle. *)
Theorem preset_click_renders_previous_props
    (k : PresetType) (p : Props) (s : Sched) :
  idle s ->
  let p' := (applyPreset k p s).1 in
  let s1 := (applyPreset k p s).2 in
  let s2 := animationFrame (queueRender p' false s1) in
  armed (nextHandle s) p s1
  /\ wantFullRef s1 = true
  /\ calls s2 = calls s ++ [mkCall p (negb (isScrubbingRef s)) (isScrubbingRef s)]
  /\ idle s2 /\ wantFullRef s2 = false.
Proof.
  intros Hi. cbv zeta.
  assert (Hs1 : (applyPreset k p s).2
                = run (if k is none then [QueueRender p true; QueueRender p true]
                       else [QueueRender p true]) s).
  { destruct k; reflexivity. }
  rewrite Hs1.
  assert (Hb : armed (nextHandle s) p
                 (run (if k is none then [QueueRender p true; QueueRender p true]
                       else [QueueRender p true]) s)
               /\ wantFullRef
                    (run (if k is none then [QueueRender p true; QueueRender p true]
                          else [QueueRender p true]) s) = true
               /\ calls
                    (run (if k is none then [QueueRender p true; QueueRender p true]
                          else [QueueRender p true]) s) = calls s
               /\ isScrubbingRef
                    (run (if k is none then [QueueRender p true; QueueRender p true]
                          else [QueueRender p true]) s) = isScrubbingRef s).
  { destruct Hi as [Hr Hc].
    destruct k; cbn; unfold queueRender; cbn; rewrite Hr; cbn; rewrite ?Hc;
      repeat split; reflexivity. }
  destruct Hb as (Ha & Hw & Hc & Hsc).
  split; [exact Ha |]. split; [exact Hw |].
  set (s1 := run _ s) in *.
  destruct (request_when_armed _ _ s1 (QueueRender (applyPreset k p s).1 false)
              Ha eq_refl) as (Ha' & Hw' & Hc' & _).
  cbn [step] in Ha', Hw', Hc'.
  destruct (frame_when_armed _ _ _ Ha') as (Hi' & Hw'' & Hsc' & Hcalls).
  rewrite Hcalls, Hc', Hc, Hw', Hw.
  assert (isScrubbingRef (queueRender (applyPreset k p s).1 false s1)
          = isScrubbingRef s) as ->.
  { unfold queueRender. destruct (rafRef s1); cbn; exact Hsc. }
  cbn. repeat split; auto; apply Hi'.
Qed.

Lemma preset_click_renders_previous_props_witness :
  let p' := (applyPreset film defaultProps initial).1 in
  let s1 := (applyPreset film defaultProps initial).2 in
  let s2 := animationFrame (queueRender p' false s1) in
  armed 1%nat defaultProps s1
  /\ wantFullRef s1 = true
  /\ calls s2 = [mkCall defaultProps true false]
  /\ idle s2 /\ wantFullRef s2 = false.
Proof.
  apply (preset_click_renders_previous_props film defaultProps initial).
  split; reflexivity.
Defined.

End PresetQueue.

Section Sizing.
Import JS.

Lemma Math_round_near (x : Q) (z : Z) :
  (inject_Z z - (1 # 2) <= x)%Q -> (x < inject_Z z + (1 # 2))%Q ->
  Math_round x = z.
Proof.
  intros Hlo Hhi. destruct (Math_round_spec x) as [H1 H2].
  set (m := Math_round x) in *.
  assert (inject_Z m < inject_Z (z + 1))%Q as A.
  { rewrite inject_Z_plus. change (inject_Z 1) with 1%Q. lra. }
  assert (inject_Z z < inject_Z (m + 1))%Q as B.
  { rewrite inject_Z_plus. change (inject_Z 1) with 1%Q. lra. }
  rewrite <- Zlt_Qlt in A, B. lia.
Qed.

Lemma Math_round_le (x : Q) (z : Z) :
  (x <= inject_Z z)%Q -> Math_round x <= z.
Proof.
  intros Hx. destruct (Math_round_spec x) as [H1 _].
  set (m := Math_round x) in *.
  assert (inject_Z m < inject_Z (z + 1))%Q as A.
  { rewrite inject_Z_plus. change (inject_Z 1) with 1%Q. lra. }
  rewrite <- Zlt_Qlt in A. lia.
Qed.

Lemma Math_round_nonneg (x : Q) : (0 <= x)%Q -> 0 <= Math_round x.
Proof.
  intros Hx. destruct (Math_round_spec x) as [_ H2].
  set (m := Math_round x) in *.
  assert (inject_Z (-1) < inject_Z m)%Q as A.
  { change (inject_Z (-1)) with (-1)%Q. lra. }
  rewrite <- Zlt_Qlt in A. lia.
Qed.

(** The scale factor of the sizing effect. *)
Lemma scale_cases (w h : Z) :
  1 <= w -> 1 <= h ->
  let m := Math_max (inject_Z w) (inject_Z h) in
  let scale := Math_min 1 (1600 / m)%Q in
  (m == inject_Z (Z.max w h))%Q
  /\ ((Z.max w h <= 1600 /\ scale = 1%Q)
      \/ (1600 < Z.max w h /\ (scale * m == 1600)%Q /\ (0 < scale < 1)%Q)).
Proof.
  intros Hw Hh m scale.
  assert (m == inject_Z (Z.max w h))%Q as Hm.
  { unfold m. destruct (Math_max_cases (inject_Z w) (inject_Z h))
      as [[Hle ->] | [Hlt ->]].
    - rewrite <- Zle_Qle in Hle. now rewrite Z.max_r.
    - rewrite <- Zlt_Qlt in Hlt. rewrite Z.max_l by lia. reflexivity. }
  split; [exact Hm |].
  assert (1 <= m)%Q as Hm1.
  { rewrite Hm. change 1%Q with (inject_Z 1). rewrite <- Zle_Qle. lia. }
  assert (m * (1600 / m) == 1600)%Q as Hdiv.
  { apply Qmult_div_r. lra. }
  destruct (Z_le_gt_dec (Z.max w h) 1600) as [Hsmall | Hbig].
  - left. split; [exact Hsmall |].
    assert (m <= 1600)%Q as Hle.
    { rewrite Hm. change 1600%Q with (inject_Z 1600). rewrite <- Zle_Qle. lia. }
    unfold scale. destruct (Math_min_cases 1 (1600 / m)) as [[_ ->] | [Hlt _]];
      [reflexivity |].
    exfalso. set (x := (1600 / m)%Q) in *. nra.
  - right. split; [lia |].
    assert (1600 < m)%Q as Hgt.
    { rewrite Hm. change 1600%Q with (inject_Z 1600). rewrite <- Zlt_Qlt. lia. }
    unfold scale. set (x := (1600 / m)%Q) in *.
    destruct (Math_min_cases 1 x) as [[Hle _] | [Hlt ->]]; [exfalso; nra |].
    split; [lra |]. split; [nra | exact Hlt].
Qed.

(** X7.  A bitmap of at most 1600 pixels in each direction keeps its
    size. *)
Theorem small_bitmap_keeps_its_size (w h : Z) :
  1 <= w <= 1600 -> 1 <= h <= 1600 -> outputSize w h = (w, h).
Proof.
  intros Hw Hh. unfold outputSize. cbv zeta.
  destruct (scale_cases w h) as (_ & [[_ ->] | [Hbig _]]); try lia.
  f_equal; apply Math_round_near; lra.
Qed.

Lemma small_bitmap_keeps_its_size_witness : outputSize 640 800 = (640, 800).
Proof. apply (small_bitmap_keeps_its_size 640 800); lia. Defined.

(** X8.  For every bitmap the output is no wider and no higher than the
    bitmap and than 1600, and when the bitmap's longer side is above 1600
    the longer side of the output is exactly 1600. *)
Theorem output_size_is_capped (w h : Z) :
  1 <= w -> 1 <= h ->
  let ow := (outputSize w h).1 in
  let oh := (outputSize w h).2 in
  0 <= ow <= Z.min w 1600
  /\ 0 <= oh <= Z.min h 1600
  /\ (Z.max w h <= 1600 \/ Z.max ow oh = 1600).
Proof.
  intros Hw Hh. unfold outputSize. cbv zeta. cbn [fst snd].
  assert (1 <= inject_Z w)%Q as Qw.
  { change 1%Q with (inject_Z 1). rewrite <- Zle_Qle. lia. }
  assert (1 <= inject_Z h)%Q as Qh.
  { change 1%Q with (inject_Z 1). rewrite <- Zle_Qle. lia. }
  destruct (scale_cases w h Hw Hh) as (Hm & [[Hsmall ->] | (Hbig & Hs & Hs1)]).
  - rewrite !(Math_round_near _ w), !(Math_round_near _ h) by lra.
    repeat split; lia.
  - set (m := Math_max (inject_Z w) (inject_Z h)) in *.
    set (scale := Math_min 1 (1600 / m)%Q) in *.
    assert (inject_Z w <= m /\ inject_Z h <= m)%Q as [Lw Lh].
    { rewrite Hm, <- !Zle_Qle. lia. }
    assert (inject_Z w * scale <= inject_Z (Z.min w 1600))%Q as Bw.
    { destruct (Z.min_spec w 1600) as [[_ ->] | [_ ->]];
        [| change (inject_Z 1600) with 1600%Q]; nra. }
    assert (inject_Z h * scale <= inject_Z (Z.min h 1600))%Q as Bh.
    { destruct (Z.min_spec h 1600) as [[_ ->] | [_ ->]];
        [| change (inject_Z 1600) with 1600%Q]; nra. }
    split; [split; [apply Math_round_nonneg; nra | now apply Math_round_le] |].
    split; [split; [apply Math_round_nonneg; nra | now apply Math_round_le] |].
    right.
    pose proof (Math_round_le _ _ Bw) as Rw.
    pose proof (Math_round_le _ _ Bh) as Rh.
    destruct (Z.max_spec w h) as [[Hlt E] | [Hle E]]; rewrite E in Hm.
    + assert (Math_round (inject_Z h * scale) = 1600) as ->.
      { apply Math_round_near; change (inject_Z 1600) with 1600%Q;
          rewrite <- Hm in *; nra. }
      lia.
    + assert (Math_round (inject_Z w * scale) = 1600) as ->.
      { apply Math_round_near; change (inject_Z 1600) with 1600%Q;
          rewrite <- Hm in *; nra. }
      lia.
Qed.

Lemma output_size_is_capped_witness :
  let ow := (outputSize 4000 3000).1 in
  let oh := (outputSize 4000 3000).2 in
  0 <= ow <= Z.min 4000 1600
  /\ 0 <= oh <= Z.min 3000 1600
  /\ (Z.max 4000 3000 <= 1600 \/ Z.max ow oh = 1600).
Proof. apply (output_size_is_capped 4000 3000); lia. Defined.

Lemma outputSize_nonneg (w h : Z) :
  1 <= w -> 1 <= h -> 0 <= (outputSize w h).1 /\ 0 <= (outputSize w h).2.
Proof.
  intros Hw Hh. unfold outputSize. cbv zeta. cbn [fst snd].
  assert (1 <= inject_Z w)%Q as Qw.
  { change 1%Q with (inject_Z 1). rewrite <- Zle_Qle. lia. }
  assert (1 <= inject_Z h)%Q as Qh.
  { change 1%Q with (inject_Z 1). rewrite <- Zle_Qle. lia. }
  destruct (scale_cases w h Hw Hh) as (_ & [[_ ->] | (_ & _ & Hs)]);
    split; apply Math_round_nonneg; nra.
Qed.

End Sizing.

(** * Export *)

Section ExportGuard.
Import JS.

(** In the two later builds every zero-width or zero-height surface only
    raises the notice. *)
Lemma guarded_export_of_empty_surface (c : Raster) :
  width c = 0 \/ height c = 0 ->
  Studio.handleDownload (Some c) = [Alert "Nothing to download yet."]
  /\ FreeBuild.handleDownload (Some c) = [Alert "Nothing to download yet."].
Proof.
  intros Hz. unfold Studio.handleDownload, FreeBuild.handleDownload.
  assert ((width c =? 0) || (height c =? 0) = true) as ->; [| split; reflexivity].
  apply orb_true_iff. destruct Hz as [-> | ->]; auto.
Qed.

Lemma or_else_positive (a b : Z) : 0 <= a -> 1 <= b -> 1 <= or_else a b.
Proof.
  intros Ha Hb. unfold or_else. destruct (a =? 0) eqn:E; [exact Hb |].
  apply Z.eqb_neq in E. lia.
Qed.

(** C9.  An export while the surface has zero width or zero height.  In
    the two later builds [handleDownload] tests for it: for every such
    surface it raises the notice and nothing else, so that no file is
    produced.  The earliest build has no such test and downloads whatever
    surface it is given; but the surface it is given is never one of zero
    width or height.  Its canvas is mounted only while there is a bitmap,
    and the render effect gives it [outW || imageBitmap.width] by
    [outH || imageBitmap.height], which is at least 1 x 1 whenever [outW]
    and [outH] are what the sizing effect has set, for this bitmap or for
    an earlier one, or are still 0. *)
Theorem export_of_empty_surface_only_notifies
    (c bmp : Raster) (w h outW outH : Z) (d : list Z) :
  width c = 0 \/ height c = 0 ->
  1 <= width bmp -> 1 <= height bmp ->
  1 <= w -> 1 <= h ->
  (outW, outH) = outputSize w h \/ (outW, outH) = (0, 0) ->
  let CW := (ProTeaser.canvasSize outW outH bmp).1 in
  let CH := (ProTeaser.canvasSize outW outH bmp).2 in
  Studio.handleDownload (Some c) = [Alert "Nothing to download yet."]
  /\ FreeBuild.handleDownload (Some c) = [Alert "Nothing to download yet."]
  /\ 1 <= CW /\ 1 <= CH
  /\ mkRaster CW CH d <> c
  /\ ProTeaser.handleDownload (Some (mkRaster CW CH d))
     = [Download "deepfry.jpg" "image/jpeg" 0.9 (mkRaster CW CH d)].
Proof.
  intros Hz Hbw Hbh Hw Hh Hout. cbv zeta.
  destruct (guarded_export_of_empty_surface c Hz) as [A B].
  split; [exact A |]. split; [exact B |].
  assert (0 <= outW /\ 0 <= outH) as [Ow Oh].
  { destruct Hout as [E | E].
    - pose proof (outputSize_nonneg _ _ Hw Hh) as (P & Q).
      rewrite <- E in P, Q. cbn [fst snd] in P, Q. lia.
    - injection E as -> ->. lia. }
  unfold ProTeaser.canvasSize. cbn [fst snd].
  pose proof (or_else_positive outW (width bmp) Ow Hbw) as PW.
  pose proof (or_else_positive outH (height bmp) Oh Hbh) as PH.
  split; [exact PW |]. split; [exact PH |]. split; [| reflexivity].
  intros <-. cbn [width height] in Hz. lia.
Qed.

Lemma export_of_empty_surface_only_notifies_witness :
  let empty := mkRaster 0 0 [] in
  let CW := (ProTeaser.canvasSize 20 10 grayBitmap).1 in
  let CH := (ProTeaser.canvasSize 20 10 grayBitmap).2 in
  Studio.handleDownload (Some empty) = [Alert "Nothing to download yet."]
  /\ FreeBuild.handleDownload (Some empty) = [Alert "Nothing to download yet."]
  /\ 1 <= CW /\ 1 <= CH
  /\ mkRaster CW CH (data grayBitmap) <> empty
  /\ ProTeaser.handleDownload (Some (mkRaster CW CH (data grayBitmap)))
     = [Download "deepfry.jpg" "image/jpeg" 0.9
                 (mkRaster CW CH (data grayBitmap))].
Proof.
  apply (export_of_empty_surface_only_notifies
           (mkRaster 0 0 []) grayBitmap 20 10 20 10 (data grayBitmap)).
  - left. reflexivity.
  - cbn. lia.
  - cbn. lia.
  - lia.
  - lia.
  - left. vm_compute. reflexivity.
Defined.

End ExportGuard.

Section ExportAfterSizing.
Import JS Studio.

(** X9.  With [outW] and [outH] as the sizing effect sets them, or still
    0 before it has run, the visible canvas of a render has a positive
    width and height, and the export of a surface of that size downloads
    [deepfry.jpg] rather than raising the zero-area notice. *)
Theorem sized_canvas_has_area_and_exports
    (p : Props) (bmp : Raster) (d : list Z) :
  1 <= width bmp -> 1 <= height bmp ->
  (outW p, outH p) = outputSize (width bmp) (height bmp)
  \/ (outW p, outH p) = (0, 0) ->
  let CW := (canvasSize p bmp).1 in
  let CH := (canvasSize p bmp).2 in
  1 <= CW /\ 1 <= CH
  /\ handleDownload (Some (mkRaster CW CH d))
     = [Download "deepfry.jpg" "image/jpeg" 0.9 (mkRaster CW CH d)].
Proof.
  intros Hw Hh Hout. cbv zeta. unfold canvasSize. cbn [fst snd].
  assert (0 <= outW p /\ 0 <= outH p) as [Ow Oh].
  { destruct Hout as [E | E].
    - pose proof (outputSize_nonneg _ _ Hw Hh) as (A & B).
      rewrite <- E in A, B. cbn [fst snd] in A, B. lia.
    - injection E as -> ->. lia. }
  assert (1 <= or_else (outW p) (width bmp)) as A.
  { unfold or_else. destruct (outW p =? 0) eqn:E; [lia |].
    apply Z.eqb_neq in E. lia. }
  assert (1 <= or_else (outH p) (height bmp)) as B.
  { unfold or_else. destruct (outH p =? 0) eqn:E; [lia |].
    apply Z.eqb_neq in E. lia. }
  split; [exact A |]. split; [exact B |].
  unfold handleDownload. cbn [width height].
  assert ((or_else (outW p) (width bmp) =? 0) = false) as -> by (apply Z.eqb_neq; lia).
  assert ((or_else (outH p) (height bmp) =? 0) = false) as -> by (apply Z.eqb_neq; lia).
  reflexivity.
Qed.

Lemma sized_canvas_has_area_and_exports_witness :
  let CW := (canvasSize defaultProps grayBitmap).1 in
  let CH := (canvasSize defaultProps grayBitmap).2 in
  1 <= CW /\ 1 <= CH
  /\ handleDownload (Some (mkRaster CW CH []))
     = [Download "deepfry.jpg" "image/jpeg" 0.9 (mkRaster CW CH [])].
Proof.
  apply (sized_canvas_has_area_and_exports defaultProps grayBitmap []).
  - cbn. lia.
  - cbn. lia.
  - left. vm_compute. reflexivity.
Defined.

End ExportAfterSizing.

Section BytesStayBytes.
Import JS.



Context `{Host}.


End BytesStayBytes.


Section SkippedPass.
Import JS.

Lemma bytes_lookup_total (d : list Z) (i : nat) :
  Forall (fun b => 0 <= b <= 255) d -> 0 <= d !!! i <= 255.
Proof.
  intros Hall. destruct (d !! i) as [b |] eqn:E.
  - rewrite (list_lookup_total_correct _ _ _ E).
    exact (proj1 (Forall_lookup _ _) Hall i b E).
  - rewrite list_lookup_total_alt, E. cbn. lia.
Qed.

(** A loop whose body stores back what it read changes nothing. *)
Lemma forPixels_identity (body : nat -> list Z -> list Z)
    (px : nat -> Z -> Z -> Z -> Z * Z * Z) :
  (forall k d,
     body k d =
     let i := (4 * k)%nat in
     let '(x, y, z) := px k (d !!! i) (d !!! (i + 1)%nat) (d !!! (i + 2)%nat) in
     <[(i + 2)%nat := z]> (<[(i + 1)%nat := y]> (<[i := x]> d))) ->
  (forall k d0 d1 d2,
     0 <= d0 <= 255 -> 0 <= d1 <= 255 -> 0 <= d2 <= 255 ->
     px k d0 d1 d2 = (d0, d1, d2)) ->
  forall n k d,
    Forall (fun b => 0 <= b <= 255) d -> forPixels body n k d = d.
Proof.
  intros Hbody Hpx. induction n as [| n IH]; intros k d Hd; [reflexivity |].
  cbn [forPixels].
  assert (Hb : forall i, 0 <= d !!! i <= 255).
  { intros i. now apply bytes_lookup_total. }
  assert (E : body k d = d).
  { rewrite Hbody. cbv zeta. rewrite Hpx by apply Hb.
    apply list_eq. intros j. rewrite lookup_three_stores.
    repeat case_decide; subst; try lia.
    - symmetry. now apply list_lookup_lookup_total_lt.
    - symmetry. now apply list_lookup_lookup_total_lt.
    - symmetry. now apply list_lookup_lookup_total_lt.
    - reflexivity.
    - symmetry. apply lookup_ge_None. lia. }
  rewrite E. now apply IH.
Qed.

Lemma stored_byte_back (v : Q) (b : Z) :
  0 <= b <= 255 -> (v == inject_Z b)%Q -> ToUint8Clamp (Studio.clamp v) = b.
Proof.
  intros Hb Hv. rewrite clamp_stores_byte, (ToInt32_comp _ _ Hv).
  unfold ToInt32. rewrite truncate_inject_Z, wrap32_small; lia.
Qed.

Lemma unit_extra_gain (b : Q) : (b <= 200)%Q -> (Math_max 1 (b / 200) == 1)%Q.
Proof.
  intros Hb. destruct (Math_max_cases 1 (b / 200)) as [[Hle ->] | [_ ->]];
    [| reflexivity].
  literal_div. lra.
Qed.

Lemma burnAmt_off (b : Q) : (b <= 0)%Q -> gt (Math_max 0 (Math_min 1 (b / 100))) 0 = false.
Proof.
  intros Hb. apply gt_false.
  destruct (Math_min_cases 1 (b / 100)) as [[Hle ->] | [_ ->]].
  - exfalso. literal_div. lra.
  - destruct (Math_max_cases 0 (b / 100)) as [[Hle ->] | [_ ->]];
      literal_div; lra.
Qed.

Context `{Host}.

(** X11.  When the test that guards the pixel pass in [renderFrame] is
    false (no heavy passes, [exposureEV = 0], [brightness <= 200],
    [burn <= 0]), the pass it skips would have stored every byte back
    unchanged. *)
Theorem skipped_pixel_pass_would_change_nothing
    (p : Studio.Props) (rnd : nat -> Q) (d : list Z) :
  Spec.imageData d ->
  (Studio.exposureEV p == 0)%Q -> (Math_pow 2 (Studio.exposureEV p) == 1)%Q ->
  (Studio.brightness p <= 200)%Q -> (Studio.burn p <= 0)%Q ->
  Studio.pixelPass p false rnd d = d.
Proof.
  intros [_ Hd] He Hpow Hb Hburn.
  unfold Studio.pixelPass, forEachPixel.
  apply (forPixels_identity _ (fun k => Studio.stored p false (rnd k)));
    [apply studio_pixelStep_shape | | exact Hd].
  intros k d0 d1 d2 H0 H1 H2.
  unfold Studio.stored, Studio.shade, Studio.extraGain, Studio.burnAmt.
  rewrite !andb_false_r. unfold Studio.burnStage.
  rewrite (burnAmt_off _ Hburn).
  unfold Studio.posterizeStage, Studio.noiseStage.
  pose proof (unit_extra_gain _ Hb) as Hx.
  f_equal; [f_equal |]; apply stored_byte_back; auto;
    rewrite Hpow, Hx; ring.
Qed.

(** X12.  In [src/App.tsx], when [needsPixel] is false the pixel pass it
    skips would have stored every byte back unchanged. *)
Theorem unneeded_pixel_pass_would_change_nothing
    (q : FreeBuild.Props) (rnd : nat -> Q) (d : list Z) :
  Spec.imageData d ->
  FreeBuild.needsPixel q = false ->
  (Math_pow 2 (FreeBuild.exposureEV q) == 1)%Q ->
  FreeBuild.pixelPass q rnd d = d.
Proof.
  intros [_ Hd] Hneed Hpow.
  unfold FreeBuild.needsPixel in Hneed.
  apply orb_false_iff in Hneed as [Hneed Hn].
  apply orb_false_iff in Hneed as [Hneed Hp].
  apply orb_false_iff in Hneed as [_ Hbr].
  apply gt_false in Hbr.
  unfold FreeBuild.pixelPass, forEachPixel.
  apply (forPixels_identity _ (fun k => FreeBuild.stored q (rnd k)));
    [apply freebuild_pixelStep_shape | | exact Hd].
  intros k d0 d1 d2 H0 H1 H2.
  unfold FreeBuild.stored, FreeBuild.shade, FreeBuild.extraGain.
  rewrite Hp, Hn.
  pose proof (unit_extra_gain _ Hbr) as Hx.
  f_equal; [f_equal |]; apply stored_byte_back; auto;
    rewrite Hpow, Hx; ring.
Qed.

End SkippedPass.

Lemma skipped_pixel_pass_would_change_nothing_witness :
  Studio.pixelPass (H := plainHost) quietPosterProps false
                   (constantDraws (1 # 4)) (data grayBitmap)
  = data grayBitmap.
Proof.
  apply (skipped_pixel_pass_would_change_nothing (H := plainHost)
           quietPosterProps (constantDraws (1 # 4)) (data grayBitmap)).
  - apply grayBitmap_imageData.
  - reflexivity.
  - reflexivity.
  - vm_compute. discriminate.
  - vm_compute. discriminate.
Defined.

Lemma unneeded_pixel_pass_would_change_nothing_witness :
  FreeBuild.pixelPass (H := plainHost) neutralFreeProps
                      (constantDraws (1 # 4)) (data grayBitmap)
  = data grayBitmap.
Proof.
  apply (unneeded_pixel_pass_would_change_nothing (H := plainHost)
           neutralFreeProps (constantDraws (1 # 4)) (data grayBitmap)).
  - apply grayBitmap_imageData.
  - reflexivity.
  - reflexivity.
Defined.

Section PreviewPass.
Import JS Studio.
Context `{Host}.

Lemma shade_preview_ignores_heavy p n l u u' d0 d1 d2 :
  shade (setHeavy n l p) false u d0 d1 d2 = shade p false u' d0 d1 d2.
Proof.
  unfold shade, extraGain, burnAmt. rewrite !andb_false_r. reflexivity.
Qed.

(** X13.  While scrubbing, the frame rendered without heavy passes does
    not depend on the noise and posterize controls or on the draws of
    [Math.random]. *)
Theorem preview_render_ignores_heavy_controls
    (p : Props) (n l : Q) (rnd rnd' : nat -> Q) (cv : option Raster) :
  renderFrame (setHeavy n l p) true rnd cv false
  = renderFrame p true rnd' cv false.
Proof.
  unfold renderFrame. cbn [imageBitmap setHeavy].
  destruct (imageBitmap p) as [bmp |]; [| reflexivity].
  destruct cv as [c |]; [| reflexivity].
  change (canvasSize (setHeavy n l p) bmp) with (canvasSize p bmp).
  destruct (canvasSize p bmp) as [CW CH].
  destruct (workSize true CW CH) as [W Hh].
  change (gradeFilter (setHeavy n l p)) with (gradeFilter p).
  change (exposureEV (setHeavy n l p)) with (exposureEV p).
  change (brightness (setHeavy n l p)) with (brightness p).
  change (burn (setHeavy n l p)) with (burn p).
  change (burnAmt (setHeavy n l p)) with (burnAmt p).
  change (overlayCalls (setHeavy n l p) CW CH) with (overlayCalls p CW CH).
  cbn [negb orb andb]. rewrite !andb_false_r.
  assert (E : forall d, pixelPass (setHeavy n l p) false rnd d
                        = pixelPass p false rnd' d).
  { intros d. unfold pixelPass, forEachPixel. apply forPixels_ext.
    intros k d'. unfold pixelStep.
    now rewrite (shade_preview_ignores_heavy p n l (rnd k) (rnd' k)). }
  now rewrite E.
Qed.

End PreviewPass.

Section AcrossBuilds.
Import JS.
Context `{Host}.

(** X14.  With [burn <= 0] and heavy passes allowed, the pixel pass of
    the build with the render queue stores the same bytes as the pixel pass
    of [src/App.tsx] for the same brightness, exposure, noise and
    posterize. *)
Theorem studio_without_burn_is_the_free_pass
    (p : Studio.Props) (q : FreeBuild.Props) (rnd : nat -> Q) (d : list Z) :
  (Studio.burn p <= 0)%Q ->
  Studio.brightness p = FreeBuild.brightness q ->
  Studio.exposureEV p = FreeBuild.exposureEV q ->
  Studio.noise p = FreeBuild.noise q ->
  Studio.posterize p = FreeBuild.posterize q ->
  Studio.pixelPass p true rnd d = FreeBuild.pixelPass q rnd d.
Proof.
  intros Hburn Eb Ee En Ep.
  unfold Studio.pixelPass, FreeBuild.pixelPass, forEachPixel.
  apply forPixels_ext. intros k d'.
  unfold Studio.pixelStep, FreeBuild.pixelStep.
  assert (E : forall u d0 d1 d2,
             Studio.shade p true u d0 d1 d2 = FreeBuild.shade q u d0 d1 d2).
  { intros u d0 d1 d2.
    unfold Studio.shade, FreeBuild.shade, Studio.extraGain,
      FreeBuild.extraGain, Studio.burnAmt, Studio.burnStage.
    rewrite (burnAmt_off _ Hburn), Eb, Ee, En, Ep, !andb_true_r.
    unfold Studio.posterizeStage, Studio.noiseStage, FreeBuild.roundStep.
    destruct (gt (FreeBuild.posterize q) 1), (gt (FreeBuild.noise q) 0);
      reflexivity. }
  now rewrite E.
Qed.

(** X15.  The posterize and noise steps of the earliest build leave the
    byte at every index [4 * j + 3] (alpha) and the length of the array
    unchanged. *)
Theorem proteaser_passes_keep_alpha
    (st : ProTeaser.Settings) (rnd : nat -> Q) (d : list Z) (j : nat) :
  ProTeaser.pixelPasses st rnd d !! (4 * j + 3)%nat = d !! (4 * j + 3)%nat
  /\ length (ProTeaser.pixelPasses st rnd d) = length d.
Proof.
  unfold ProTeaser.pixelPasses, forEachPixel.
  set (step := (255 / (ProTeaser.posterize st - 1))%Q).
  set (s := (ProTeaser.noise st * 255)%Q).
  assert (P : forall n k d',
             forPixels (ProTeaser.posterizeStep step) n k d' !! (4 * j + 3)%nat
             = d' !! (4 * j + 3)%nat
             /\ length (forPixels (ProTeaser.posterizeStep step) n k d')
                = length d').
  { intros n k d'. split.
    - apply (forPixels_alpha _ (fun _ => ProTeaser.posterized step)),
        proteaser_posterizeStep_shape.
    - apply (forPixels_length _ (fun _ => ProTeaser.posterized step)),
        proteaser_posterizeStep_shape. }
  assert (N : forall n k d',
             forPixels (ProTeaser.noiseStep s rnd) n k d' !! (4 * j + 3)%nat
             = d' !! (4 * j + 3)%nat
             /\ length (forPixels (ProTeaser.noiseStep s rnd) n k d')
                = length d').
  { intros n k d'. split.
    - apply (forPixels_alpha _ (fun k => ProTeaser.noised s (rnd k))).
      reflexivity.
    - apply (forPixels_length _ (fun k => ProTeaser.noised s (rnd k))).
      reflexivity. }
  destruct (gt (ProTeaser.posterize st) 1), (gt (ProTeaser.noise st) 0).
  - destruct (N ((length (forPixels (ProTeaser.posterizeStep step)
                                     ((length d + 3) / 4) 0 d) + 3) / 4)%nat
                0%nat
                (forPixels (ProTeaser.posterizeStep step)
                           ((length d + 3) / 4) 0 d)) as [N1 N2].
    destruct (P ((length d + 3) / 4)%nat 0%nat d) as [P1 P2].
    split; congruence.
  - apply P.
  - apply N.
  - auto.
Qed.

End AcrossBuilds.

Lemma studio_without_burn_is_the_free_pass_witness :
  Studio.pixelPass (H := plainHost) quietPosterProps true
                   (constantDraws (1 # 4)) (data whiteBitmap)
  = FreeBuild.pixelPass (H := plainHost) posterFreeProps
                        (constantDraws (1 # 4)) (data whiteBitmap).
Proof.
  apply (studio_without_burn_is_the_free_pass (H := plainHost)
           quietPosterProps posterFreeProps (constantDraws (1 # 4))
           (data whiteBitmap)).
  - vm_compute. discriminate.
  - reflexivity.
  - reflexivity.
  - reflexivity.
  - reflexivity.
Defined.

Section ClampEdge.
Import JS.

(** X16.  For a value from 2^31 up to 2^32 the helper [clamp] of the two
    later builds gives 0, as [v | 0] wraps to a negative integer; the
    [clamp] of the earliest build, without [| 0], gives 255. *)
Theorem clamp_wraps_beyond_int32 (v : Q) :
  (inject_Z (2 ^ 31) <= v < inject_Z (2 ^ 32))%Q ->
  ToUint8Clamp (Studio.clamp v) = 0
  /\ ToUint8Clamp (FreeBuild.clamp v) = 0
  /\ ToUint8Clamp (ProTeaser.clamp v) = 255.
Proof.
  intros [Hlo Hhi].
  assert (Qle_bool 0 v = true) as Hpos.
  { apply Qle_bool_iff. eapply Qle_trans; [| exact Hlo]. discriminate. }
  assert (2 ^ 31 <= truncate v < 2 ^ 32) as Ht.
  { unfold truncate. rewrite Hpos. split.
    - rewrite <- (Qfloor_Z (2 ^ 31)). now apply Qfloor_resp_le.
    - pose proof (Qfloor_le v) as Hfl.
      assert (inject_Z (Qfloor v) < inject_Z (2 ^ 32))%Q as A
          by (eapply Qle_lt_trans; eassumption).
      now rewrite <- Zlt_Qlt in A. }
  assert (ToInt32 v = truncate v - 2 ^ 32) as Hw.
  { unfold ToInt32, wrap32.
    replace (truncate v + 2 ^ 31) with ((truncate v - 2 ^ 31) + 1 * 2 ^ 32) by lia.
    rewrite Z.mod_add, Z.mod_small; lia. }
  split; [| split].
  - rewrite clamp_stores_byte, Hw. lia.
  - change (FreeBuild.clamp v) with (Studio.clamp v).
    rewrite clamp_stores_byte, Hw. lia.
  - unfold ProTeaser.clamp.
    assert (255 < v)%Q as Hbig.
    { eapply Qlt_le_trans; [| exact Hlo]. reflexivity. }
    destruct (Math_min_cases 255 v) as [[_ ->] | [Hlt _]]; [| lra].
    destruct (Math_max_cases 0 255) as [[_ ->] | [Hlt _]]; [| lra].
    reflexivity.
Qed.

Lemma clamp_wraps_beyond_int32_witness :
  ToUint8Clamp (Studio.clamp 3000000000.5) = 0
  /\ ToUint8Clamp (FreeBuild.clamp 3000000000.5) = 0
  /\ ToUint8Clamp (ProTeaser.clamp 3000000000.5) = 255.
Proof.
  apply (clamp_wraps_beyond_int32 3000000000.5).
  split; vm_compute; [discriminate | reflexivity].
Defined.

End ClampEdge.

Section WorkingCanvas.
Import JS Studio.
Context `{Host}.

Lemma workSize_bounds isScrubbing CW CH :
  1 <= CW -> 1 <= CH ->
  1 <= (workSize isScrubbing CW CH).1 <= CW
  /\ 1 <= (workSize isScrubbing CW CH).2 <= CH.
Proof.
  intros HW HH. destruct isScrubbing.
  - unfold workSize. cbn [fst snd].
    pose proof (preview_dimension_le CW HW).
    pose proof (preview_dimension_le CH HH). lia.
  - rewrite workSize_released by assumption. cbn [fst snd]. lia.
Qed.

(** X17.  For an output of at least 1 x 1, every render allocates a
    working canvas of at least 1 x 1 and no larger than the output, and
    exactly of the output size when not scrubbing. *)
Theorem working_canvas_fits_the_output
    (p : Props) (isScrubbing : bool) (rnd : nat -> Q) (c bmp : Raster)
    (runHeavyPasses : bool) :
  imageBitmap p = Some bmp ->
  1 <= (canvasSize p bmp).1 -> 1 <= (canvasSize p bmp).2 ->
  exists fr,
    renderFrame p isScrubbing rnd (Some c) runHeavyPasses = Some fr
    /\ 1 <= width (work fr) <= (canvasSize p bmp).1
    /\ 1 <= height (work fr) <= (canvasSize p bmp).2
    /\ (isScrubbing = true
        \/ (width (work fr), height (work fr)) = canvasSize p bmp).
Proof.
  intros Hbmp HW HH. unfold renderFrame. rewrite Hbmp.
  destruct (canvasSize p bmp) as [CW CH]. cbn [fst snd] in *.
  pose proof (workSize_bounds isScrubbing CW CH HW HH) as [BW BH].
  pose proof (workSize_released CW CH HW HH) as HR.
  destruct (workSize isScrubbing CW CH) as [W Hh] eqn:E. cbn [fst snd] in *.
  eexists. split; [reflexivity |]. cbn [work width height].
  split; [exact BW |]. split; [exact BH |].
  destruct isScrubbing; [left; reflexivity | right].
  rewrite HR in E. now injection E as -> ->.
Qed.


End WorkingCanvas.

Lemma working_canvas_fits_the_output_witness :
  exists fr,
    Studio.renderFrame (H := plainHost) defaultProps false (constantDraws (1 # 4))
                (Some grayBitmap) true = Some fr
    /\ 1 <= width (Studio.work fr) <= 20
    /\ 1 <= height (Studio.work fr) <= 10
    /\ (false = true \/ (width (Studio.work fr), height (Studio.work fr)) = (20, 10)).
Proof.
  apply (working_canvas_fits_the_output (H := plainHost) defaultProps false
           (constantDraws (1 # 4)) grayBitmap grayBitmap true).
  - reflexivity.
  - cbn. lia.
  - cbn. lia.
Defined.

Section Presets.
Import JS Studio.
Local Open Scope Q_scope.

(** X18.  Whatever the adjustments were, [applyPreset k] leaves them in
    their documented ranges with [preset = k], keeps the image and the
    output size, gives the same bundle from any earlier state, never uses
    the extra gain ([extraGain = 1]), and for [none] is [handleReset]. *)
Theorem preset_is_an_in_range_bundle
    (k : PresetType) (p p' : Props) (s s' : Sched) :
  let r := (applyPreset k p s).1 in
  Spec.inRange r
  /\ preset r = k
  /\ imageBitmap r = imageBitmap p /\ outW r = outW p /\ outH r = outH p
  /\ (brightness r, contrast r, saturation r, hue r,
      exposureEV r, burn r, noise r, posterize r)
     = (let r' := (applyPreset k p' s').1 in
        (brightness r', contrast r', saturation r', hue r',
         exposureEV r', burn r', noise r', posterize r'))
  /\ extraGain r == 1
  /\ (applyPreset none p s).1 = (handleReset p s).1.
Proof.
  cbv zeta. destruct k; cbn;
    (split; [repeat split; vm_compute; discriminate |]);
    repeat split; reflexivity.
Qed.

(** X20.  In the earliest build every state the handlers can reach has
    its adjustments in range, [posterize] 0 or 6, and [noise] at least
    0.06: the noise step of the render effect always runs. *)
Theorem proteaser_settings_invariant (acts : list ProTeaser.Action) :
  let st := ProTeaser.after acts in
  50 <= ProTeaser.brightness st <= 160
  /\ 50 <= ProTeaser.contrast st <= 250
  /\ 0 <= ProTeaser.saturation st <= 300
  /\ -180 <= ProTeaser.hue st <= 180
  /\ 0.06 <= ProTeaser.noise st <= 0.2
  /\ (ProTeaser.posterize st == 0 \/ ProTeaser.posterize st == 6)
  /\ gt (ProTeaser.noise st) 0 = true.
Proof.
  cbv zeta. unfold ProTeaser.after.
  set (I := fun st =>
         50 <= ProTeaser.brightness st <= 160
         /\ 50 <= ProTeaser.contrast st <= 250
         /\ 0 <= ProTeaser.saturation st <= 300
         /\ -180 <= ProTeaser.hue st <= 180
         /\ 0.06 <= ProTeaser.noise st <= 0.2
         /\ (ProTeaser.posterize st == 0 \/ ProTeaser.posterize st == 6)).
  assert (G : forall acts st, I st -> I (fold_left ProTeaser.act acts st)).
  { clear acts. induction acts as [| a acts IH]; intros st Hst; [exact Hst |].
    cbn [fold_left]. apply IH.
    destruct a as [[] | |]; unfold I; cbn;
      repeat split; try (vm_compute; discriminate);
      try (left; reflexivity); try (right; reflexivity). }
  assert (I0 : I ProTeaser.initial).
  { unfold I; cbn. repeat split; try (vm_compute; discriminate).
    left; reflexivity. }
  destruct (G acts _ I0) as (A & B & C & D & E & F).
  repeat split; try tauto. apply gt_true. lra.
Qed.

End Presets.

Section OverlayHelpers.
Import JS Studio.

Lemma scanlinesFrom_rows fuel : forall y h r,
  h <= y + 2 * Z.of_nat fuel ->
  In r (scanlinesFrom fuel y h)
  <-> (y <= r < h /\ exists i, r = y + 2 * i).
Proof.
  induction fuel as [| fuel IH]; intros y h r Hfuel; cbn [scanlinesFrom].
  - split; [intros [] | intros [? _]; lia].
  - destruct (y <? h)%Z eqn:E.
    + apply Z.ltb_lt in E. cbn [In]. rewrite IH by lia. split.
      * intros [<- | [Hr [i ->]]].
        -- split; [lia |]. exists 0. lia.
        -- split; [lia |]. exists (i + 1). lia.
      * intros [Hr [i ->]]. destruct (Z.eq_dec i 0) as [-> | Hi].
        -- left. lia.
        -- right. split; [lia |]. exists (i - 1). lia.
    + apply Z.ltb_ge in E. split; [intros [] | intros [? _]; lia].
Qed.

(** X21.  [drawScanlines] fills exactly the even rows [0 <= y < h]. *)
Theorem scanlines_fill_the_even_rows (h r : Z) :
  In r (scanlineRows h) <-> 0 <= r < h /\ Z.even r = true.
Proof.
  unfold scanlineRows. rewrite scanlinesFrom_rows by lia. split.
  - intros [Hr [i ->]]. split; [lia |].
    rewrite Z.add_0_l, Z.even_mul. reflexivity.
  - intros [Hr He]. split; [lia |].
    apply Z.even_spec in He as [i ->]. exists i. lia.
Qed.

Local Open Scope Q_scope.

(** X22.  For [burn] in range, every alpha the overlay helpers hand to
    the canvas during a render lies between 0 and 1, and the cap
    [Math.min(0.5, strength)] of [drawWarmEdgeBurn] leaves the strength it
    is called with unchanged. *)
Theorem overlay_alphas_are_valid (p : Props) (CW CH : Z) :
  0 <= burn p <= 100 ->
  Forall (fun o => Forall (fun a => 0 <= a <= 1) (overlayAlphas o))
         (overlayCalls p CW CH)
  /\ Forall (fun o =>
               match o with
               | WarmEdgeBurn _ _ strength => Math_min 0.5 strength == strength
               | _ => True
               end)
            (overlayCalls p CW CH).
Proof.
  intros Hb. unfold overlayCalls.
  assert (0 <= burn p / 100 <= 1) as Hq by (literal_div; lra).
  assert (Math_min 0.5 (0.5 * (burn p / 100)) == 0.5 * (burn p / 100)) as Hcap.
  { destruct (Math_min_cases 0.5 (0.5 * (burn p / 100))) as [[Hc ->] | [_ ->]];
      lra. }
  split; apply Forall_app; split.
  - destruct (preset p); repeat constructor; vm_compute; discriminate.
  - destruct (gt (burn p) 0); [| constructor].
    repeat constructor; cbn [overlayAlphas]; try lra; rewrite Hcap; lra.
  - destruct (preset p); repeat constructor.
  - destruct (gt (burn p) 0); repeat constructor. exact Hcap.
Qed.

Lemma overlay_alphas_are_valid_witness :
  Forall (fun o => Forall (fun a => 0 <= a <= 1) (overlayAlphas o))
         (overlayCalls defaultProps 20 10)
  /\ Forall (fun o =>
               match o with
               | WarmEdgeBurn _ _ strength => Math_min 0.5 strength == strength
               | _ => True
               end)
            (overlayCalls defaultProps 20 10).
Proof.
  apply (overlay_alphas_are_valid defaultProps 20 10).
  split; vm_compute; discriminate.
Defined.

End OverlayHelpers.
